(** * braindecode/models/util.py

    A shallow embedding of the four functions of [braindecode.models.util]:
    [to_dense_prediction_model], [get_output_shape], [_pad_shift_array] with
    [aggregate_probas], and [TimeDistributed.forward], followed by the
    properties of the specification that can be settled on them.

    Python integers are [Z]; the entries of the NumPy array [stride_so_far]
    are 64-bit integers whose products wrap around; the strides of an array
    are 64-bit integers that a Python integer must fit in; floating point
    numbers are an abstract type [T] with an addition and a zero; exceptions
    are values of [exn], and a function that may raise returns a [result].
    Memory is unbounded: an allocation does not fail. *)

From Stdlib Require Import ZArith Lia.
From stdpp Require Import base option list numbers strings sets.

Local Open Scope Z_scope.

(** ** Exceptions *)

Inductive exn : Type :=
  | AssertionError (msg : string)
  | IndexError            (* list assignment index out of range *)
  | UFuncTypeError        (* the output of a ufunc cannot be cast to int64 *)
  | ValueError            (* operands cannot be broadcast; negative padding;
                             reduction of a zero-size axis *)
  | AxisError             (* axis out of bounds for the array *)
  | NotImplementedError
  | OverflowError         (* Python int too large to convert to C long *)
  | StopIteration
  | RuntimeError.         (* raised by torch *)

Inductive result (A : Type) : Type :=
  | Ok (a : A)
  | Raise (e : exn).
Arguments Ok {A} a.
Arguments Raise {A} e.

#[export] Instance result_ret : MRet result := λ A a, Ok a.
#[export] Instance result_bind : MBind result := λ A B f r,
  match r with
  | Ok a => f a
  | Raise e => Raise e
  end.

(** ** [to_dense_prediction_model] *)

(** The value of a [stride], [dilation] or [axis] attribute: an [int] or a
    tuple of [int]s. *)
Inductive attr : Type :=
  | AInt (z : Z)
  | ATuple (l : list Z).

#[export] Instance attr_eq_dec : EqDecision attr.
Proof. solve_decision. Defined.

(** A module as [to_dense_prediction_model] sees it: [hasattr(module, ...)] is
    [None] or [Some]. *)
Record nn_module : Type := NnModule {
  dilation : option attr;
  stride : option attr
}.

#[export] Instance nn_module_eq_dec : EqDecision nn_module.
Proof. solve_decision. Defined.

Definition axis_msg : string := "Only 2 and 3 allowed for axis".
Definition dilation_msg : string :=
  "Dilation should equal 1 before conversion, maybe the model is already converted?".

(** The entries of an attribute; for [axis] this is
    [if not hasattr(axis, "__len__"): axis = [axis]]. *)
Definition elements (a : attr) : list Z :=
  match a with AInt z => [z] | ATuple l => l end.

(** The index of a Python list of length [len]: negative indices count from
    the end. *)
Definition py_index (len : nat) (i : Z) : option nat :=
  let j := if i <? 0 then i + Z.of_nat len else i in
  if (0 <=? j) && (j <? Z.of_nat len) then Some (Z.to_nat j) else None.

Definition py_getitem (l : list Z) (i : Z) : result Z :=
  match py_index (length l) i with
  | Some n => match l !! n with Some v => Ok v | None => Raise IndexError end
  | None => Raise IndexError
  end.

Definition py_setitem (l : list Z) (i : Z) (v : Z) : result (list Z) :=
  match py_index (length l) i with
  | Some n => Ok (<[n := v]> l)
  | None => Raise IndexError
  end.

(** 64-bit signed integers of NumPy: arithmetic wraps around silently. *)
Definition in_int64 (z : Z) : bool := (- 2 ^ 63 <=? z) && (z <? 2 ^ 63).
Definition wrap64 (z : Z) : Z := (z + 2 ^ 63) mod 2 ^ 64 - 2 ^ 63.

(** [stride_so_far *= np.array(s)], for [stride_so_far] an int64 array of
    shape (2,).  [np.array(s)] is an int64 array when [s] is not empty and
    all its entries fit; otherwise it has another dtype and the product
    cannot be cast back (the in-place product fails).  An array of one
    entry is broadcast, an array of two is multiplied entry by entry, any
    other shape does not broadcast. *)
Definition np_imul (stride_so_far : list Z) (s : list Z) : result (list Z) :=
  if bool_decide (s = []) || negb (forallb in_int64 s) then Raise UFuncTypeError
  else match s with
       | [a] => Ok ((λ x, wrap64 (x * a)) <$> stride_so_far)
       | [a; b] => Ok (zip_with (λ x y, wrap64 (x * y)) stride_so_far [a; b])
       | _ => Raise ValueError
       end.

(** [module.dilation == 1 or module.dilation == (1, 1)] *)
Definition unit_dilation (d : attr) : bool :=
  match d with
  | AInt z => z =? 1
  | ATuple l => bool_decide (l = [1; 1])
  end.

(** [for ax in axis: new_dilation[ax] = int(stride_so_far[ax])] *)
Fixpoint set_dilation_axes (axis : list Z) (stride_so_far new_dilation : list Z)
  : result (list Z) :=
  match axis with
  | [] => Ok new_dilation
  | ax :: rest =>
      v ← py_getitem stride_so_far ax;
      new_dilation' ← py_setitem new_dilation ax v;
      set_dilation_axes rest stride_so_far new_dilation'
  end.

(** [for ax in axis: new_stride[ax] = 1] *)
Fixpoint set_stride_axes (axis : list Z) (new_stride : list Z) : result (list Z) :=
  match axis with
  | [] => Ok new_stride
  | ax :: rest =>
      new_stride' ← py_setitem new_stride ax 1;
      set_stride_axes rest new_stride'
  end.

(** Lines 39-47: the [dilation] attribute of one module.  The module is
    returned as the step leaves it, also when the step raises. *)
Definition dilation_step (axis stride_so_far : list Z) (m : nn_module)
  : nn_module * result unit :=
  match dilation m with
  | None => (m, Ok ())
  | Some d =>
      if unit_dilation d then
        match set_dilation_axes axis stride_so_far [1; 1] with
        | Ok new_dilation =>
            ({| dilation := Some (ATuple new_dilation); stride := stride m |}, Ok ())
        | Raise e => (m, Raise e)
        end
      else (m, Raise (AssertionError dilation_msg))
  end.

(** Lines 48-55: the [stride] attribute of one module; returns the new
    [stride_so_far]. *)
Definition stride_step (axis stride_so_far : list Z) (m : nn_module)
  : nn_module * result (list Z) :=
  match stride m with
  | None => (m, Ok stride_so_far)
  | Some s =>
      let s := match s with AInt z => ATuple [z; z] | ATuple _ => s end in
      let m := {| dilation := dilation m; stride := Some s |} in
      match np_imul stride_so_far (elements s) with
      | Raise e => (m, Raise e)
      | Ok stride_so_far' =>
          match set_stride_axes axis (elements s) with
          | Raise e => (m, Raise e)
          | Ok new_stride =>
              ({| dilation := dilation m; stride := Some (ATuple new_stride) |},
               Ok stride_so_far')
          end
      end
  end.

(** The body of the loop over [model.modules()]. *)
Definition convert_module (axis stride_so_far : list Z) (m : nn_module)
  : nn_module * result (list Z) :=
  match dilation_step axis stride_so_far m with
  | (m, Raise e) => (m, Raise e)
  | (m, Ok _) => stride_step axis stride_so_far m
  end.

(** The loop: the modules are mutated in place, so the modules are returned
    as the loop leaves them, together with what the loop raised, if
    anything. *)
Fixpoint convert_modules (axis stride_so_far : list Z) (modules : list nn_module)
  : list nn_module * result unit :=
  match modules with
  | [] => ([], Ok ())
  | m :: rest =>
      match convert_module axis stride_so_far m with
      | (m', Raise e) => (m' :: rest, Raise e)
      | (m', Ok stride_so_far') =>
          let (rest', r) := convert_modules axis stride_so_far' rest in
          (m' :: rest', r)
      end
  end.

(** [model] is the list that [model.modules()] enumerates. *)
Definition to_dense_prediction_model (model : list nn_module) (axis : attr)
  : list nn_module * result unit :=
  let axis := elements axis in
  if forallb (λ ax, bool_decide (ax ∈ [2; 3])) axis then
    let axis := (λ ax, ax - 2) <$> axis in
    let stride_so_far := [1; 1] in
    convert_modules axis stride_so_far model
  else (model, Raise (AssertionError axis_msg)).

(** ** Arrays *)

(** The contents of an array or tensor: its shape and the item at each
    index.  Only the items at indices inside the shape are meaningful. *)
Record ndarray (A : Type) : Type := NdArray {
  shape : list nat;
  item : list nat → A
}.
Arguments NdArray {A} shape item.
Arguments shape {A} n.
Arguments item {A} n idx.

(** [a.T] *)
Definition transpose {A} (a : ndarray A) : ndarray A :=
  {| shape := reverse (shape a); item := λ idx, item a (reverse idx) |}.

(** A NumPy array as a function receives it.  [fnc] is [flags.fnc] of the
    arrays that NumPy computes elementwise from this one (its ufuncs keep
    the memory order of their operand): [true] when they are Fortran
    contiguous and not C contiguous, as for [np.asfortranarray(a)] or the
    [.T] of an array in C order, and [false] for arrays in C order, which
    is what NumPy builds by default.  [itemsize] is the number of bytes of
    an item of those arrays: 4 for float32 logits, 8 for float64 logits and
    for integer logits, whose log-softmax is float64. *)
Record np_array (T : Type) : Type := NpArray {
  contents : ndarray T;
  fnc : bool;
  itemsize : positive
}.
Arguments NpArray {T} contents fnc itemsize.
Arguments contents {T} n.
Arguments fnc {T} n.
Arguments itemsize {T} n.

(** A three-dimensional view of a buffer: [x.shape], [x.strides] counted in
    items, the memory that [x] points to, and [x.itemsize], the number of
    bytes of an item ([x.strides] of NumPy is [strides] times [item_bytes]).
    The item at [i, c, t] is the one at offset [i * s0 + c * s1 + t * s2] of
    the buffer. *)
Record strided (T : Type) : Type := Strided {
  dims : nat * nat * nat;
  strides : Z * Z * Z;
  buffer : list T;
  item_bytes : positive
}.
Arguments Strided {T} dims strides buffer item_bytes.
Arguments dims {T} s.
Arguments strides {T} s.
Arguments buffer {T} s.
Arguments item_bytes {T} s.

(** [x.nbytes], for [x] that owns its buffer. *)
Definition nbytes {T} (x : strided T) : Z :=
  Z.pos (item_bytes x) * Z.of_nat (length (buffer x)).

(** The items [f i j k] for [i < n0], [j < n1], [k < n2], the last index
    running fastest. *)
Definition ravel3 {T} (n0 n1 n2 : nat) (f : nat → nat → nat → T) : list T :=
  flat_map (λ i, flat_map (λ j, f i j <$> seq 0 n2) (seq 0 n1)) (seq 0 n0).

(** Reading through a view.  An offset outside the buffer reads memory that
    does not belong to the array: the value is indeterminate, [None]. *)
Definition view_item {T} (v : strided T) (i c t : nat) : option T :=
  let '(s0, s1, s2) := strides v in
  let offset := Z.of_nat i * s0 + Z.of_nat c * s1 + Z.of_nat t * s2 in
  if offset <? 0 then None else buffer v !! Z.to_nat offset.

Section Aggregation.
Context {T : Type}.
(** Floating point zero and addition. *)
Variable zero : T.
Variable add : T → T → T.
(** [lsm v c] is the log-softmax of the score vector [v] at position [c]
    (scipy computes [v[c] - max(v) - log(sum(exp(v - max(v))))]). *)
Variable lsm : list T → nat → T.

(** [scipy.special.log_softmax(x, axis)]: the reductions over [axis] raise
    when the axis does not exist or has length 0; the result has the shape
    and the memory order of [x]. *)
Definition log_softmax (x : np_array T) (axis : nat) : result (np_array T) :=
  match shape (contents x) !! axis with
  | None => Raise AxisError
  | Some n =>
      if decide (n = 0%nat) then Raise ValueError
      else Ok {| contents :=
                   {| shape := shape (contents x);
                      item := λ idx,
                        lsm ((λ c, item (contents x) (<[axis := c]> idx)) <$> seq 0 n)
                            (idx !!! axis) |};
                 fnc := fnc x;
                 itemsize := itemsize x |}
  end.

(** The item at [i, c, t] of the padded array: the item of [x], or the
    zero that pads the row. *)
Definition padded_item (x : ndarray T) (n_windows : nat) (i c t : nat) : T :=
  if decide (t < n_windows)%nat then item x [i; c; t] else zero.

(** [np.pad(x, ((0, 0), (0, 0), (0, pad)))] for [x] of shape
    [(n_rows, n_classes, n_windows)]: a new contiguous buffer, laid out in
    Fortran order when [x.flags.fnc] and in C order otherwise, that holds
    the padded items.  In C order the last axis runs fastest and the
    strides are [(n_classes * len, len, 1)]; in Fortran order the first
    axis runs fastest and the strides are [(1, n_rows, n_rows * n_classes)];
    the strides of an array without items are all 0.

    Memory is unbounded here: the array is allocated whatever its size,
    where NumPy raises when it has 2^63 bytes or more, or more bytes than
    the machine can give. *)
Definition np_pad (x : np_array T) (n_rows n_classes n_windows pad : nat) : strided T :=
  let len := (n_windows + pad)%nat in
  let padded := padded_item (contents x) n_windows in
  let strides_of (s : Z * Z * Z) : Z * Z * Z :=
    if decide (n_rows * n_classes * len = 0)%nat then (0, 0, 0) else s in
  if fnc x then
    {| dims := (n_rows, n_classes, len);
       strides := strides_of (1, Z.of_nat n_rows, Z.of_nat (n_rows * n_classes));
       buffer := ravel3 len n_classes n_rows (λ t c i, padded i c t);
       item_bytes := itemsize x |}
  else
    {| dims := (n_rows, n_classes, len);
       strides := strides_of (Z.of_nat (n_classes * len), Z.of_nat len, 1);
       buffer := ravel3 n_rows n_classes len padded;
       item_bytes := itemsize x |}.

(** [np.lib.stride_tricks.as_strided(x, strides=new_strides)]: a view of the
    memory of [x] with the shape of [x] and the strides given.  NumPy keeps
    a stride, counted in bytes, in a C long of 64 bits, and the conversion
    of a Python int that does not fit raises [OverflowError].

    The strides are checked for the arrays that NumPy can hold, those of
    fewer than 2^63 bytes: a larger [x] exists only because memory is
    unbounded here, and its own strides are beyond the C long already. *)
Definition as_strided (x : strided T) (new_strides : Z * Z * Z) : result (strided T) :=
  let '(s0, s1, s2) := new_strides in
  let fits (s : Z) : bool := in_int64 (Z.pos (item_bytes x) * s) in
  if in_int64 (nbytes x) && negb (fits s0 && fits s1 && fits s2)
  then Raise OverflowError
  else Ok {| dims := dims x; strides := new_strides; buffer := buffer x;
             item_bytes := item_bytes x |}.

(** Lines 96-105.  [np.pad] raises [ValueError] on a negative width. *)
Definition _pad_shift_array (x : np_array T) (stride : Z) : result (strided T) :=
  match shape (contents x) with
  | [n_rows; n_classes; n_windows] =>
      let pad := (Z.of_nat n_rows - 1) * stride in
      if pad <? 0 then Raise ValueError
      else
        let x_padded := np_pad x n_rows n_classes n_windows (Z.to_nat pad) in
        let orig_strides := strides x_padded in
        let new_strides := (orig_strides.1.1 - stride * orig_strides.2,
                            orig_strides.1.2,
                            orig_strides.2) in
        as_strided x_padded new_strides
  | _ => Raise NotImplementedError
  end.

(** [v.sum(axis=0)]: the items along axis 0 are added to the zero that the
    sum starts from; an item read outside the buffer makes the sum
    indeterminate. *)
Definition sum_axis0 (v : strided T) : ndarray (option T) :=
  let '(n0, n1, n2) := dims v in
  {| shape := [n1; n2];
     item := λ idx,
       foldl (λ acc i,
                a ← acc; b ← view_item v i (idx !!! 0%nat) (idx !!! 1%nat); Some (add a b))
             (Some zero) (seq 0 n0) |}.

(** Lines 139-140. *)
Definition aggregate_probas (logits : np_array T) (n_windows_stride : Z)
  : result (ndarray (option T)) :=
  log_probas ← log_softmax logits 1;
  shifted ← _pad_shift_array log_probas n_windows_stride;
  Ok (transpose (sum_axis0 shifted)).

End Aggregation.

(** ** [TimeDistributed] *)

(** The index [k] of a flattened array of shape [dims], as an index list. *)
Fixpoint unravel (dims : list nat) (k : nat) : list nat :=
  match dims with
  | [] => []
  | _ :: rest =>
      let size := foldr Nat.mul 1%nat rest in
      (k / size)%nat :: unravel rest (k mod size)%nat
  end.

Section TimeDistributed.
Context {T Out : Type}.

(** The two sub-modules, as the functions that calling them computes. *)
Record time_distributed : Type := TimeDistributed {
  feat_extractor : ndarray T → result (ndarray T);
  clf : ndarray T → result Out
}.

(** [x[:, i]] *)
Definition select1 (x : ndarray T) (i : nat) : ndarray T :=
  {| shape := delete 1%nat (shape x);
     item := λ idx, item x (take 1 idx ++ i :: drop 1 idx) |}.

(** [torch.stack(feats, dim=1)]: there must be a tensor, the first one must
have an axis 0 to put the new axis after, and all must have one shape. *)
Definition torch_stack1 (feats : list (ndarray T)) : result (ndarray T) :=
  match feats with
  | [] => Raise RuntimeError
  | f0 :: _ =>
      if decide (shape f0 = []) then Raise IndexError
      else if negb (forallb (λ f, bool_decide (shape f = shape f0)) feats)
      then Raise RuntimeError
      else Ok {| shape := take 1 (shape f0) ++ length feats :: drop 1 (shape f0);
                 item := λ idx,
                   item (default f0 (feats !! (idx !!! 1%nat)))
                        (take 1 idx ++ drop 2 idx) |}
  end.

(** [t.flatten(start_dim=1)], for [t] with at least one axis. *)
Definition flatten1 (t : ndarray T) : ndarray T :=
  {| shape := take 1 (shape t) ++ [foldr Nat.mul 1%nat (drop 1 (shape t))];
     item := λ idx,
       item t (take 1 idx ++ unravel (drop 1 (shape t)) (idx !!! 1%nat)) |}.

Definition forward (self : time_distributed) (x : ndarray T) : result Out :=
  match shape x !! 1%nat with
  | None => Raise IndexError
  | Some seq_len =>
      feats ← mapM (λ i, feat_extractor self (select1 x i)) (seq 0 seq_len);
      feats ← torch_stack1 feats;
      clf self (flatten1 feats)
  end.

End TimeDistributed.
Arguments time_distributed : clear implicits.

(** ** [get_output_shape] *)

Section ShapeProbe.
Context {T Dtype Device : Type}.
Variable one : T.

Record parameter : Type := MkParameter { p_dtype : Dtype; p_device : Device }.

Record tensor : Type := Tensor {
  t_values : ndarray T;
  t_dtype : Dtype;
  t_device : Device
}.

(** A model: the parameters that [model.parameters()] yields, and what
    calling the model computes. *)
Record torch_model : Type := TorchModel {
  parameters : list parameter;
  call : tensor → result tensor
}.

(** [next(it)] on a fresh iterator over [l] *)
Definition py_next {A} (l : list A) : result A :=
  match l with
  | [] => Raise StopIteration
  | a :: _ => Ok a
  end.

Definition torch_ones (size : list nat) (dtype : Dtype) (device : Device) : tensor :=
  {| t_values := {| shape := size; item := λ _, one |};
     t_dtype := dtype;
     t_device := device |}.

Definition get_output_shape (model : torch_model) (in_chans input_window_samples : nat)
  : result (list nat) :=
  p_dt ← py_next (parameters model);
  p_dev ← py_next (parameters model);
  let dummy_input :=
    torch_ones [1%nat; in_chans; input_window_samples] (p_dtype p_dt) (p_device p_dev) in
  out ← call model dummy_input;
  Ok (shape (t_values out)).

End ShapeProbe.
Arguments parameter : clear implicits.
Arguments tensor : clear implicits.
Arguments torch_model : clear implicits.

(** ** Specification-side notions for the aggregation *)

(** The length of the padding, [(n_rows - 1) * stride]. *)
Definition pad_of (n_rows : nat) (stride : Z) : nat :=
  Z.to_nat ((Z.of_nat n_rows - 1) * stride).

(** The first stride of the view that [_pad_shift_array] builds, in bytes:
    [orig_strides[0] - stride * orig_strides[2]], for a padded array of
    shape [(n_rows, n_classes, len)] that has the memory order and the item
    size of [x]. *)
Definition first_byte_stride {T} (x : np_array T) (n_rows n_classes len : nat)
    (stride : Z) : Z :=
  Z.pos (itemsize x)
  * (if decide (n_rows * n_classes * len = 0)%nat then 0
     else if fnc x then 1 - stride * Z.of_nat (n_rows * n_classes)
     else Z.of_nat (n_classes * len) - stride).

(** The first stride of the view fits in a C long, if NumPy can hold the
    padded array at all. *)
Definition view_fits {T} (x : np_array T) (n_rows n_classes n_windows : nat)
    (stride : Z) : Prop :=
  let len := (n_windows + pad_of n_rows stride)%nat in
  in_int64 (Z.pos (itemsize x) * Z.of_nat (n_rows * n_classes * len)) = true →
  in_int64 (first_byte_stride x n_rows n_classes len stride) = true.



(** The sequences that cover the dense position [t]: those [i] with
    [0 <= t - i * stride < n_windows]. *)
Definition covers (n_windows : nat) (stride : Z) (t i : nat) : Prop :=
  0 ≤ Z.of_nat t - Z.of_nat i * stride < Z.of_nat n_windows.

#[export] Instance covers_dec n_windows stride t i : Decision (covers n_windows stride t i).
Proof. unfold covers. apply _. Defined.

Definition covering (n_rows n_windows : nat) (stride : Z) (t : nat) : list nat :=
  filter (covers n_windows stride t) (seq 0 n_rows).

(** The sum of a list of numbers, from zero, in the order of the list. *)
Definition sum_list {T} (zero : T) (add : T → T → T) (l : list T) : T :=
  foldl add zero l.

(** ** Specification-side notions for the conversion *)

(** The stride of a module on entry [i] of [stride_so_far], as the loop
    multiplies it in: an int counts on both entries, a tuple of one entry is
    broadcast, a module without stride counts for 1. *)
Definition stride_on (i : nat) (m : nn_module) : Z :=
  match stride m with
  | None => 1
  | Some (AInt z) => z
  | Some (ATuple [a]) => a
  | Some (ATuple l) => l !!! i
  end.

(** The product of the strides of the modules before position [k]. *)
Definition upstream_stride (i : nat) (model : list nn_module) (k : nat) : Z :=
  foldr Z.mul 1 (stride_on i <$> take k model).
Arguments upstream_stride : simpl never.

(** A module of a chain as the specification describes it: a dilation that
    is still 1, and a stride that is an int or a pair of ints, all of them
    64-bit. *)
Definition chain_module (m : nn_module) : Prop :=
  (∃ d, dilation m = Some d ∧ unit_dilation d = true) ∧
  ((∃ z, stride m = Some (AInt z) ∧ in_int64 z = true) ∨
   (∃ a b, stride m = Some (ATuple [a; b]) ∧ in_int64 a = true ∧ in_int64 b = true)).

(** The axes after [np.array(axis) - 2]. *)
Definition axes01 (axis : list Z) : Prop := Forall (λ ax, ax = 0 ∨ ax = 1) axis.

(** What the first conversion leaves on a module, for the axes [axis]
    (already reduced by 2): a dilation of two entries, a stride of one or
    two 64-bit entries that is 1 on the axes. *)
Definition converted (axis : list Z) (m : nn_module) : Prop :=
  (∀ d, dilation m = Some d → ∃ a b, d = ATuple [a; b]) ∧
  (∀ s, stride m = Some s →
     (∃ a, s = ATuple [a] ∧ in_int64 a = true ∧ (1 ∉ axis) ∧ (0 ∈ axis → a = 1)) ∨
     (∃ a b, s = ATuple [a; b] ∧ in_int64 a = true ∧ in_int64 b = true ∧
             (0 ∈ axis → a = 1) ∧ (1 ∈ axis → b = 1))).

(** A module that the conversion for the axes 2 and 3 accepts: a dilation,
    if it has one, that is 1 or (1, 1), and a stride, if it has one, that is
    an int or a pair of ints, all of them 64-bit. *)
Definition convertible (m : nn_module) : Prop :=
  (∀ d, dilation m = Some d → unit_dilation d = true) ∧
  (∀ s, stride m = Some s →
     (∃ z, s = AInt z ∧ in_int64 z = true) ∨
     (∃ a b, s = ATuple [a; b] ∧ in_int64 a = true ∧ in_int64 b = true)).

(** The module [m'] has the stride (1, 1) if [m] has a stride, and none if
    [m] has none. *)
Definition stride_eliminated (m m' : nn_module) : Prop :=
  stride m' = (λ _, ATuple [1; 1]) <$> stride m.

(** A module whose dilation, if it has one, is (1, 1): the assertion of the
    conversion passes on it. *)
Definition unit_or_absent (m : nn_module) : Prop :=
  ∀ d, dilation m = Some d → d = ATuple [1; 1].

#[export] Instance unit_or_absent_dec m : Decision (unit_or_absent m).
Proof.
  unfold unit_or_absent. destruct (dilation m) as [d |].
  - destruct (decide (d = ATuple [1; 1])) as [-> | Hne].
    + left. by intros ? [= <-].
    + right. intros H. by apply Hne, H.
  - left. done.
Defined.

(** A module that carries a dilation other than (1, 1). *)
Definition non_unit_dilation (m : nn_module) : Prop :=
  ∃ d, dilation m = Some d ∧ d ≠ ATuple [1; 1].

(** The assertion on [axis] passes. *)
Definition valid_axis (axis : attr) : Prop :=
  forallb (λ ax, bool_decide (ax ∈ [2; 3])) (elements axis) = true.

(** ** The conversion in closed form *)

(** Whether the axis [a] (2 or 3) is among the axes to convert. *)
Definition selected (a : Z) (axis : attr) : bool := bool_decide (a ∈ elements axis).

(** What the stride [s] of a module makes the conversion raise, if
    anything; [sel3] tells whether axis 3 is selected. *)
Definition stride_error (sel3 : bool) (s : attr) : option exn :=
  let l := match s with AInt z => [z; z] | ATuple l => l end in
  if bool_decide (l = []) || negb (forallb in_int64 l) then Some UFuncTypeError
  else match l with
       | [_] => if sel3 then Some IndexError else None
       | [_; _] => None
       | _ => Some ValueError
       end.

(** What a module makes the conversion raise, if anything. *)
Definition module_error (sel3 : bool) (m : nn_module) : option exn :=
  match dilation m with
  | Some d =>
      if unit_dilation d then stride m ≫= stride_error sel3
      else Some (AssertionError dilation_msg)
  | None => stride m ≫= stride_error sel3
  end.

(** The first error among the modules, in the order of [model.modules()]. *)
Definition first_error (axis : attr) (model : list nn_module) : option exn :=
  head (omap (module_error (selected 3 axis)) model).

(** A module as a conversion that does not raise leaves it, when the
    cumulative stride before the module is [(d2, d3)]: the dilation, if
    there is one, is the cumulative stride on the selected axes and 1 on
    the others; the stride, if there is one, is 1 on the selected axes and
    as it was on the others. *)
Definition converted_module (sel2 sel3 : bool) (d2 d3 : Z) (m : nn_module) : nn_module :=
  {| dilation :=
       match dilation m with
       | Some _ => Some (ATuple [if sel2 then d2 else 1; if sel3 then d3 else 1])
       | None => None
       end;
     stride :=
       match stride m with
       | Some (AInt z) => Some (ATuple [if sel2 then 1 else z; if sel3 then 1 else z])
       | Some (ATuple [a]) => Some (ATuple [if sel2 then 1 else a])
       | Some (ATuple [a; b]) => Some (ATuple [if sel2 then 1 else a; if sel3 then 1 else b])
       | s => s
       end |}.

(** [if not hasattr(module.stride, "__len__"): module.stride = (stride, stride)] *)
Definition normalised_stride (s : option attr) : option attr :=
  match s with
  | Some (AInt z) => Some (ATuple [z; z])
  | _ => s
  end.

(** The module at which a conversion raises, as the conversion leaves it:
    as it was when the assertion on its dilation fails; otherwise with its
    dilation already written and an int stride already made a pair. *)
Definition interrupted_module (sel2 sel3 : bool) (d2 d3 : Z) (m : nn_module) : nn_module :=
  match dilation m with
  | Some d =>
      if unit_dilation d then
        {| dilation := Some (ATuple [if sel2 then d2 else 1; if sel3 then d3 else 1]);
           stride := normalised_stride (stride m) |}
      else m
  | None => {| dilation := None; stride := normalised_stride (stride m) |}
  end.

(** The modules as a conversion that does not raise leaves them. *)
Definition converted_model (axis : attr) (model : list nn_module) : list nn_module :=
  imap (λ k, converted_module (selected 2 axis) (selected 3 axis)
               (wrap64 (upstream_stride 0 model k))
               (wrap64 (upstream_stride 1 model k)))
       model.

(** Two modules with the same attributes present. *)
Definition same_attributes (m m' : nn_module) : Prop :=
  (is_Some (dilation m) ↔ is_Some (dilation m')) ∧
  (is_Some (stride m) ↔ is_Some (stride m')).

(** A small network: a container, a strided convolution, a pooling layer
    whose stride and dilation are ints, a convolution with a stride on one
    axis, and a last convolution. *)
Definition network_example : list nn_module :=
  [NnModule None None;
   NnModule (Some (ATuple [1; 1])) (Some (ATuple [2; 3]));
   NnModule (Some (AInt 1)) (Some (AInt 3));
   NnModule (Some (ATuple [1; 1])) (Some (ATuple [1; 5]));
   NnModule (Some (ATuple [1; 1])) (Some (ATuple [1; 1]))].

(** The same network with a one-dimensional convolution in the middle. *)
Definition network_example_1d : list nn_module :=
  [NnModule None None;
   NnModule (Some (ATuple [1; 1])) (Some (ATuple [2; 3]));
   NnModule (Some (ATuple [1])) (Some (ATuple [2]));
   NnModule (Some (ATuple [1; 1])) (Some (ATuple [1; 5]))].

(** ** What [aggregate_probas] raises *)


(** ** [TimeDistributed.__init__] and the default classifier *)

(** [TypeError], beside the exceptions above. *)
Inductive py_exn : Type :=
  | Exn (e : exn)
  | TypeError.

Section DefaultClassifier.
Context {T : Type}.

(** [nn.Dropout(p)] as a forward pass sees it: what the layer does to the
    item at each index (nothing in evaluation mode; in training mode the
    item is zeroed or rescaled). *)
Record nn_dropout : Type := NnDropout {
  drop_item : list nat → T → T
}.

Definition dropout_forward (d : nn_dropout) (x : ndarray T) : ndarray T :=
  {| shape := shape x; item := λ idx, drop_item d idx (item x idx) |}.

(** [nn.Linear(in_features, out_features)]: [affine v j] is output [j] for
    the input row [v], with the weights and the bias that the layer was
    initialised with. *)
Record nn_linear : Type := NnLinear {
  in_features : nat;
  out_features : nat;
  affine : list T → nat → T
}.

(** The forward pass of the linear layer: the last axis of the input must
    have [in_features] entries, and is replaced by [out_features]
    entries. *)
Definition linear_forward (l : nn_linear) (x : ndarray T) : result (ndarray T) :=
  match last (shape x) with
  | None => Raise RuntimeError
  | Some k =>
      if decide (k = in_features l) then
        let r := (length (shape x) - 1)%nat in
        Ok {| shape := take r (shape x) ++ [out_features l];
              item := λ idx,
                affine l ((λ j, item x (take r idx ++ [j])) <$> seq 0 k) (idx !!! r) |}
      else Raise RuntimeError
  end.

(** [nn.Sequential(nn.Dropout(...), nn.Linear(...))] *)
Definition sequential_forward (d : nn_dropout) (l : nn_linear) (x : ndarray T)
  : result (ndarray T) :=
  linear_forward l (dropout_forward d (x)).

(** Lines 175-185.  [feat_size], [n_windows] and [n_classes] are an int or
    [None]; [drop_item] and [affine] are what the two layers of the default
    classifier compute once they are built.  [nn.Dropout] raises
    [ValueError] on a probability outside [0, 1]; [None * None] raises
    [TypeError], as does [nn.Linear] on a size that is [None]; [nn.Linear]
    raises [RuntimeError] on a negative size. *)
Definition TimeDistributed_init
    (feat_extractor : ndarray T → result (ndarray T))
    (feat_size n_windows n_classes : option Z) (dropout : QArith_base.Q)
    (clf : option (ndarray T → result (ndarray T)))
    (drop_item : list nat → T → T) (affine : list T → nat → T)
  : py_exn + time_distributed T (ndarray T) :=
  match clf with
  | None =>
      if negb (QArith_base.Qle_bool (QArith_base.inject_Z 0) dropout
               && QArith_base.Qle_bool dropout (QArith_base.inject_Z 1))
      then inl (Exn ValueError)
      else match feat_size, n_windows with
           | Some feat_size, Some n_windows =>
               match n_classes with
               | Some n_classes =>
                   if (feat_size * n_windows <? 0) || (n_classes <? 0)
                   then inl (Exn RuntimeError)
                   else inr {| feat_extractor := feat_extractor;
                               clf := sequential_forward
                                        (NnDropout drop_item)
                                        (NnLinear (Z.to_nat (feat_size * n_windows))
                                                  (Z.to_nat n_classes) affine) |}
               | None => inl TypeError
               end
           | _, _ => inl TypeError
           end
  | Some clf => inr {| feat_extractor := feat_extractor; clf := clf |}
  end.

End DefaultClassifier.

(** ** Small inputs to run the functions on *)

Local Open Scope nat_scope.

(** Integers in the place of floating point numbers, and a function in the
    place of the log-softmax of a score vector, to run the functions on
    small arrays. *)
Definition lsm_example (v : list Z) (c : nat) : Z :=
  (v !!! c - foldr Z.max 0 v)%Z.

Definition logits_example (s : list nat) (fnc : bool) : np_array Z :=
  {| contents :=
       {| shape := s; item := λ idx, foldr (λ i acc, 10 * acc + Z.of_nat i)%Z 0%Z idx |};
     fnc := fnc;
     itemsize := 8 |}.

(** A feature extractor that adds 1 to the two samples of channel 0 of each
    window, and a head that returns the shape of what it receives. *)
Definition time_distributed_example : time_distributed Z (list nat) :=
  {| feat_extractor := λ w,
       Ok {| shape := [shape w !!! 0; 2];
             item := λ idx, (item w [idx !!! 0; 0; idx !!! 1]%nat + 1)%Z |};
     clf := λ feats, Ok (shape feats) |}.

Definition windows_example : ndarray Z :=
  {| shape := [2; 3; 1; 2];
     item := λ idx, foldr (λ i acc, 10 * acc + Z.of_nat i)%Z 0%Z idx |}.

(** A feature extractor that raises on the window whose first sample is 10
    (window 1 of [windows_example]). *)
Definition failing_extractor_example (w : ndarray Z) : result (ndarray Z) :=
  if (item w [0; 0; 0]%nat =? 10)%Z then Raise ValueError
  else feat_extractor time_distributed_example w.

(** A feature extractor whose number of features depends on the window. *)
Definition uneven_extractor_example (w : ndarray Z) : result (ndarray Z) :=
  Ok {| shape := [shape w !!! 0; 2 + Z.to_nat (item w [0; 0; 0]%nat)];
        item := λ idx, item w [idx !!! 0; 0; 0] |}.

(** A model with the parameters given, that maps an input of shape
    (n, c, samples) to an output of shape (n, 4, samples - 9). *)
Definition model_example (parameters : list (parameter bool nat))
  : torch_model Z bool nat :=
  {| parameters := parameters;
     call := λ x,
       match shape (t_values x) with
       | [n; _; samples] =>
           Ok {| t_values := {| shape := [n; 4; samples - 9]; item := item (t_values x) |};
                 t_dtype := t_dtype x;
                 t_device := t_device x |}
       | _ => Raise RuntimeError
       end |}.

Local Open Scope Z_scope.

(** ** Properties of [to_dense_prediction_model] *)

Lemma wrap64_in_int64 z : in_int64 (wrap64 z) = true.
Proof.
  unfold in_int64, wrap64.
  pose proof (Z.mod_pos_bound (z + 2 ^ 63) (2 ^ 64) ltac:(lia)).
  apply andb_true_iff; split; [apply Z.leb_le | apply Z.ltb_lt]; lia.
Qed.

Lemma wrap64_id z : in_int64 z = true → wrap64 z = z.
Proof.
  unfold in_int64, wrap64. intros [H1 H2]%andb_true_iff.
  apply Z.leb_le in H1. apply Z.ltb_lt in H2.
  rewrite Z.mod_small; lia.
Qed.

Lemma wrap64_mul_l x y : wrap64 (wrap64 x * y) = wrap64 (x * y).
Proof.
  unfold wrap64. f_equal.
  rewrite <- (Zplus_mod_idemp_l (_ * y)), <- (Zplus_mod_idemp_l (x * y)).
  f_equal. f_equal.
  rewrite <- Zmult_mod_idemp_l.
  rewrite <- (Zmult_mod_idemp_l x y). f_equal. f_equal.
  rewrite Zminus_mod_idemp_l. f_equal. lia.
Qed.

Lemma axes01_reduce l :
  forallb (λ ax, bool_decide (ax ∈ [2; 3])) l = true → axes01 ((λ ax, ax - 2) <$> l).
Proof.
  unfold axes01. rewrite forallb_forall, Forall_fmap, Forall_forall.
  intros H ax Hax. apply list_elem_of_In, H, bool_decide_eq_true in Hax.
  simpl. apply elem_of_cons in Hax as [-> | Hax]; [by left|].
  apply list_elem_of_singleton in Hax as ->. by right.
Qed.

Lemma bool_decide_elem_of_hd (a : Z) l : bool_decide (a ∈ a :: l) = true.
Proof. apply bool_decide_eq_true. left. Qed.

Lemma bool_decide_elem_of_tl (a b : Z) l :
  a ≠ b → bool_decide (a ∈ b :: l) = bool_decide (a ∈ l).
Proof.
  intros Hne. apply bool_decide_ext. rewrite elem_of_cons.
  split; [by intros [-> | ?] | by right].
Qed.

Lemma set_stride_axes_pair axis a b :
  axes01 axis →
  set_stride_axes axis [a; b]
  = Ok [if bool_decide (0 ∈ axis) then 1 else a; if bool_decide (1 ∈ axis) then 1 else b].
Proof.
  intros H. revert a b. induction H as [|ax axis [-> | ->] _ IH]; intros a b.
  - reflexivity.
  - change (set_stride_axes (0 :: axis) [a; b]) with (set_stride_axes axis [1; b]).
    rewrite IH, bool_decide_elem_of_hd, bool_decide_elem_of_tl by done.
    by destruct (bool_decide (0 ∈ axis)).
  - change (set_stride_axes (1 :: axis) [a; b]) with (set_stride_axes axis [a; 1]).
    rewrite IH, bool_decide_elem_of_hd, bool_decide_elem_of_tl by done.
    by destruct (bool_decide (1 ∈ axis)).
Qed.

Lemma set_stride_axes_single axis a :
  axes01 axis →
  set_stride_axes axis [a]
  = if bool_decide (1 ∈ axis) then Raise IndexError
    else Ok [if bool_decide (0 ∈ axis) then 1 else a].
Proof.
  intros H. revert a. induction H as [|ax axis [-> | ->] _ IH]; intros a.
  - reflexivity.
  - change (set_stride_axes (0 :: axis) [a]) with (set_stride_axes axis [1]).
    rewrite IH, bool_decide_elem_of_hd, bool_decide_elem_of_tl by done.
    by destruct (bool_decide (0 ∈ axis)).
  - change (set_stride_axes (1 :: axis) [a]) with (Raise (A:=list Z) IndexError).
    by rewrite bool_decide_elem_of_hd.
Qed.

Lemma set_dilation_axes_pair axis x y a b :
  axes01 axis →
  set_dilation_axes axis [x; y] [a; b]
  = Ok [if bool_decide (0 ∈ axis) then x else a; if bool_decide (1 ∈ axis) then y else b].
Proof.
  intros H. revert a b. induction H as [|ax axis [-> | ->] _ IH]; intros a b.
  - reflexivity.
  - change (set_dilation_axes (0 :: axis) [x; y] [a; b])
      with (set_dilation_axes axis [x; y] [x; b]).
    rewrite IH, bool_decide_elem_of_hd, bool_decide_elem_of_tl by done.
    by destruct (bool_decide (0 ∈ axis)).
  - change (set_dilation_axes (1 :: axis) [x; y] [a; b])
      with (set_dilation_axes axis [x; y] [a; y]).
    rewrite IH, bool_decide_elem_of_hd, bool_decide_elem_of_tl by done.
    by destruct (bool_decide (1 ∈ axis)).
Qed.

Lemma dilation_step_none axis ssf m :
  dilation m = None → dilation_step axis ssf m = (m, Ok ()).
Proof. unfold dilation_step. by intros ->. Qed.

Lemma dilation_step_not_unit axis ssf m d :
  dilation m = Some d → unit_dilation d = false →
  dilation_step axis ssf m = (m, Raise (AssertionError dilation_msg)).
Proof. unfold dilation_step. by intros -> ->. Qed.

Lemma dilation_step_unit axis x y m d :
  axes01 axis → dilation m = Some d → unit_dilation d = true →
  dilation_step axis [x; y] m
  = ({| dilation := Some (ATuple [if bool_decide (0 ∈ axis) then x else 1;
                                  if bool_decide (1 ∈ axis) then y else 1]);
        stride := stride m |}, Ok ()).
Proof.
  unfold dilation_step. intros Hax -> ->.
  by rewrite set_dilation_axes_pair.
Qed.

Lemma stride_step_none axis ssf m :
  stride m = None → stride_step axis ssf m = (m, Ok ssf).
Proof. unfold stride_step. by intros ->. Qed.

Lemma stride_step_pair axis x y m a b :
  axes01 axis → stride m = Some (ATuple [a; b]) →
  in_int64 a = true → in_int64 b = true →
  stride_step axis [x; y] m
  = ({| dilation := dilation m;
        stride := Some (ATuple [if bool_decide (0 ∈ axis) then 1 else a;
                                if bool_decide (1 ∈ axis) then 1 else b]) |},
     Ok [wrap64 (x * a); wrap64 (y * b)]).
Proof.
  unfold stride_step, np_imul. intros Hax -> Ha Hb. cbn.
  rewrite Ha, Hb. cbn. by rewrite set_stride_axes_pair.
Qed.

Lemma stride_step_int axis x y m z :
  axes01 axis → stride m = Some (AInt z) → in_int64 z = true →
  stride_step axis [x; y] m
  = ({| dilation := dilation m;
        stride := Some (ATuple [if bool_decide (0 ∈ axis) then 1 else z;
                                if bool_decide (1 ∈ axis) then 1 else z]) |},
     Ok [wrap64 (x * z); wrap64 (y * z)]).
Proof.
  unfold stride_step, np_imul. intros Hax -> Hz. cbn.
  rewrite Hz. cbn. by rewrite set_stride_axes_pair.
Qed.

Lemma stride_step_single axis x y m a :
  axes01 axis → stride m = Some (ATuple [a]) → in_int64 a = true → 1 ∉ axis →
  stride_step axis [x; y] m
  = ({| dilation := dilation m;
        stride := Some (ATuple [if bool_decide (0 ∈ axis) then 1 else a]) |},
     Ok [wrap64 (x * a); wrap64 (y * a)]).
Proof.
  unfold stride_step, np_imul. intros Hax -> Ha H1. cbn.
  rewrite Ha. cbn. rewrite set_stride_axes_single by done.
  by rewrite bool_decide_eq_false_2.
Qed.

(** A stride step that does not raise leaves a stride that is 1 on the
    axes. *)
Lemma stride_step_ok axis x y m m' ssf' :
  axes01 axis → stride_step axis [x; y] m = (m', Ok ssf') →
  dilation m' = dilation m ∧
  (∃ x' y', ssf' = [x'; y']) ∧
  (∀ s, stride m' = Some s →
     (∃ a, s = ATuple [a] ∧ in_int64 a = true ∧ (1 ∉ axis) ∧ (0 ∈ axis → a = 1)) ∨
     (∃ a b, s = ATuple [a; b] ∧ in_int64 a = true ∧ in_int64 b = true ∧
             (0 ∈ axis → a = 1) ∧ (1 ∈ axis → b = 1))).
Proof.
  intros Hax. destruct (stride m) as [[z | l] |] eqn:Hs.
  - destruct (in_int64 z) eqn:Hz.
    + rewrite (stride_step_int _ _ _ _ z) by done. intros [= <- <-]. cbn.
      split_and!; [done | eauto |]. intros s [= <-]. right. eexists _, _.
      split; [done |]. repeat case_bool_decide; naive_solver.
    + unfold stride_step, np_imul. rewrite Hs. cbn. rewrite Hz. cbn. discriminate.
  - destruct l as [| a [| b [| c l]]].
    + unfold stride_step, np_imul. rewrite Hs. cbn. discriminate.
    + destruct (in_int64 a) eqn:Ha;
        [| unfold stride_step, np_imul; rewrite Hs; cbn; rewrite Ha; cbn; discriminate].
      destruct (decide (1 ∈ axis)) as [H1 | H1].
      * unfold stride_step, np_imul. rewrite Hs. cbn. rewrite Ha. cbn.
        rewrite set_stride_axes_single, bool_decide_eq_true_2 by done. discriminate.
      * rewrite (stride_step_single _ _ _ _ a) by done. intros [= <- <-]. cbn.
        split_and!; [done | eauto |]. intros s [= <-]. left. eexists.
        split; [done |]. repeat case_bool_decide; naive_solver.
    + destruct (in_int64 a) eqn:Ha, (in_int64 b) eqn:Hb;
        try (unfold stride_step, np_imul; rewrite Hs; cbn; rewrite Ha, Hb; cbn; discriminate).
      rewrite (stride_step_pair _ _ _ _ a b) by done. intros [= <- <-]. cbn.
      split_and!; [done | eauto |]. intros s [= <-]. right. eexists _, _.
      split; [done |]. repeat case_bool_decide; naive_solver.
    + unfold stride_step, np_imul. rewrite Hs. cbn.
      destruct (in_int64 a && (in_int64 b && (in_int64 c && forallb in_int64 l)));
        cbn; discriminate.
  - rewrite stride_step_none by done. intros [= <- <-].
    split_and!; [done | eauto |]. intros s Hs'. congruence.
Qed.

Lemma convert_module_ok axis x y m m' ssf' :
  axes01 axis → convert_module axis [x; y] m = (m', Ok ssf') →
  converted axis m' ∧ ∃ x' y', ssf' = [x'; y'].
Proof.
  intros Hax. unfold convert_module.
  destruct (dilation_step axis [x; y] m) as [m1 [[] | e]] eqn:Hd; [| discriminate].
  intros (Hdil & Hssf & Hstr)%stride_step_ok; [| done].
  split; [| done]. split; [| done].
  intros d. rewrite Hdil. revert Hd. unfold dilation_step.
  destruct (dilation m) as [d0 |] eqn:Hd0.
  - destruct (unit_dilation d0); [| discriminate].
    rewrite set_dilation_axes_pair by done. intros [= <-]. cbn. intros [= <-]. eauto.
  - intros [= <-]. congruence.
Qed.

Lemma convert_modules_ok axis x y model model' :
  axes01 axis → convert_modules axis [x; y] model = (model', Ok ()) →
  Forall (converted axis) model'.
Proof.
  intros Hax. revert x y model'.
  induction model as [| m model IH]; intros x y model'; cbn.
  - intros [= <-]. constructor.
  - destruct (convert_module axis [x; y] m) as [m1 [ssf1 | e]] eqn:Hm; [| discriminate].
    apply convert_module_ok in Hm as [Hm (x1 & y1 & ->)]; [| done].
    destruct (convert_modules axis [x1; y1] model) as [rest r] eqn:Hrest.
    intros [= <- ->]. constructor; [done |]. by eapply IH.
Qed.

Lemma convert_modules_length axis ssf model model' r :
  convert_modules axis ssf model = (model', r) → length model' = length model.
Proof.
  revert ssf model' r. induction model as [| m model IH]; intros ssf model' r; cbn.
  - by intros [= <- _].
  - destruct (convert_module axis ssf m) as [m1 [ssf1 | e]].
    + destruct (convert_modules axis ssf1 model) as [rest r'] eqn:Hrest.
      intros [= <- _]. cbn. f_equal. eapply IH, Hrest.
    + by intros [= <- _].
Qed.

Lemma axes01_elem axis ax : axes01 axis → ax ∈ axis → ax = 0 ∨ ax = 1.
Proof. unfold axes01. rewrite Forall_forall. auto. Qed.

Lemma upstream_stride_0 i model : upstream_stride i model 0 = 1.
Proof. reflexivity. Qed.

Lemma upstream_stride_S i m model k :
  upstream_stride i (m :: model) (S k) = stride_on i m * upstream_stride i model k.
Proof. reflexivity. Qed.

(** One module of a chain: the dilation takes the cumulative stride, the
    stride becomes 1 on the axes, and the stride is multiplied in. *)
Lemma convert_module_chain axis x y m :
  axes01 axis → chain_module m →
  convert_module axis [x; y] m
  = ({| dilation := Some (ATuple [if bool_decide (0 ∈ axis) then x else 1;
                                  if bool_decide (1 ∈ axis) then y else 1]);
        stride := Some (ATuple [if bool_decide (0 ∈ axis) then 1 else stride_on 0 m;
                                if bool_decide (1 ∈ axis) then 1 else stride_on 1 m]) |},
     Ok [wrap64 (x * stride_on 0 m); wrap64 (y * stride_on 1 m)]).
Proof.
  intros Hax [(d & Hd & Hunit) [(z & Hs & Hz) | (a & b & Hs & Ha & Hb)]];
    unfold convert_module; rewrite (dilation_step_unit _ _ _ _ d) by done.
  - rewrite (stride_step_int _ _ _ _ z) by done.
    unfold stride_on. by rewrite Hs.
  - rewrite (stride_step_pair _ _ _ _ a b) by done.
    unfold stride_on. by rewrite Hs.
Qed.

Lemma convert_modules_chain axis model :
  axes01 axis → Forall chain_module model →
  ∀ x y, in_int64 x = true → in_int64 y = true →
  ∃ model',
    convert_modules axis [x; y] model = (model', Ok ()) ∧
    ∀ k m', model' !! k = Some m' →
      dilation m'
      = Some (ATuple [if bool_decide (0 ∈ axis)
                      then wrap64 (x * upstream_stride 0 model k) else 1;
                      if bool_decide (1 ∈ axis)
                      then wrap64 (y * upstream_stride 1 model k) else 1]).
Proof.
  intros Hax. induction 1 as [| m model Hm _ IH]; intros x y Hx Hy; cbn.
  - eexists. split; [done |]. intros k m'. by rewrite lookup_nil.
  - rewrite convert_module_chain by done.
    destruct (IH (wrap64 (x * stride_on 0 m)) (wrap64 (y * stride_on 1 m)))
      as (rest & -> & Hrest); [apply wrap64_in_int64 .. |].
    eexists. split; [done |]. intros [| k] m'; cbn.
    + intros [= <-]. cbn. rewrite !upstream_stride_0, !Z.mul_1_r, !wrap64_id; done.
    + intros Hk. rewrite (Hrest _ _ Hk), !upstream_stride_S, !wrap64_mul_l, !Z.mul_assoc.
      done.
Qed.

(** The second conversion of a converted module whose dilation is still
    (1, 1), with a cumulative stride that is 1 on the axes, changes
    nothing. *)
Lemma if_bool_decide_same (P : Prop) `{Decision P} (u v : Z) :
  (P → u = v) → (if bool_decide P then u else v) = v.
Proof. intros H'. case_bool_decide; auto. Qed.

Lemma convert_module_again axis x y m :
  axes01 axis → converted axis m →
  (∀ d, dilation m = Some d → d = ATuple [1; 1]) →
  in_int64 x = true → in_int64 y = true →
  (0 ∈ axis → x = 1) → (1 ∈ axis → y = 1) →
  ∃ x' y',
    convert_module axis [x; y] m = (m, Ok [x'; y']) ∧
    in_int64 x' = true ∧ in_int64 y' = true ∧
    (0 ∈ axis → x' = 1) ∧ (1 ∈ axis → y' = 1).
Proof.
  intros Hax [_ Hstr] Hdil Hx Hy Hx1 Hy1. destruct m as [dil str].
  cbn in Hstr, Hdil. unfold convert_module.
  assert (dilation_step axis [x; y] (NnModule dil str) = (NnModule dil str, Ok ())) as ->.
  { destruct dil as [d |]; [| done].
    rewrite (Hdil d eq_refl).
    rewrite (dilation_step_unit _ _ _ _ (ATuple [1; 1])) by done. cbn.
    by rewrite !if_bool_decide_same. }
  destruct str as [s |]; [| rewrite stride_step_none by done; eauto 10].
  destruct (Hstr s eq_refl) as [(a & -> & Ha & H1 & Ha1) | (a & b & -> & Ha & Hb & Ha1 & Hb1)].
  - rewrite (stride_step_single _ _ _ _ a) by done. cbn.
    rewrite if_bool_decide_same by (intros; symmetry; auto).
    eexists _, _. split_and!; [done | apply wrap64_in_int64 .. | |].
    + intros H0. rewrite (Ha1 H0), (Hx1 H0). done.
    + done.
  - rewrite (stride_step_pair _ _ _ _ a b) by done. cbn.
    rewrite !if_bool_decide_same by (intros; symmetry; auto).
    eexists _, _. split_and!; [done | apply wrap64_in_int64 .. | |].
    + intros H0. rewrite (Ha1 H0), (Hx1 H0). done.
    + intros H1. rewrite (Hb1 H1), (Hy1 H1). done.
Qed.

Lemma convert_module_again_raises axis ssf m d :
  converted axis m → dilation m = Some d → d ≠ ATuple [1; 1] →
  convert_module axis ssf m = (m, Raise (AssertionError dilation_msg)).
Proof.
  intros [Hdil _] Hd Hne. unfold convert_module.
  rewrite (dilation_step_not_unit _ _ _ d); [done .. |].
  destruct (Hdil d Hd) as (a & b & ->). cbn.
  apply bool_decide_eq_false_2. congruence.
Qed.

Lemma convert_modules_again axis model :
  axes01 axis → Forall (converted axis) model →
  ∀ x y, in_int64 x = true → in_int64 y = true →
  (0 ∈ axis → x = 1) → (1 ∈ axis → y = 1) →
  (Forall unit_or_absent model → convert_modules axis [x; y] model = (model, Ok ())) ∧
  (¬ Forall unit_or_absent model →
   (convert_modules axis [x; y] model).2 = Raise (AssertionError dilation_msg)).
Proof.
  intros Hax. induction 1 as [| m model Hm _ IH]; intros x y Hx Hy Hx1 Hy1.
  - split; [done |]. intros []. constructor.
  - destruct (decide (unit_or_absent m)) as [Hu | Hu].
    + destruct (convert_module_again axis x y m) as (x' & y' & Hc & Hx' & Hy' & Hx1' & Hy1');
        [done .. |].
      destruct (IH x' y') as [IH1 IH2]; [done .. |].
      cbn. rewrite Hc. split.
      * intros [_ Hall]%Forall_cons. by rewrite IH1.
      * intros Hnot. destruct (convert_modules axis [x'; y'] model) as [rest r] eqn:Hr.
        cbn. apply (IH2 (λ Hall, Hnot (Forall_cons_2 _ _ _ Hu Hall))).
    + split; [by intros [? _]%Forall_cons |]. intros _.
      unfold unit_or_absent in Hu.
      destruct (dilation m) as [d |] eqn:Hd; [| by destruct Hu].
      cbn. rewrite (convert_module_again_raises _ _ _ d); [done .. |].
      intros ->. apply Hu. by intros ? [= <-].
Qed.

Lemma to_dense_prediction_model_valid model axis :
  valid_axis axis →
  to_dense_prediction_model model axis
  = convert_modules ((λ ax, ax - 2) <$> elements axis) [1; 1] model.
Proof. unfold to_dense_prediction_model, valid_axis. by intros ->. Qed.

Lemma to_dense_prediction_model_ok model axis model' :
  to_dense_prediction_model model axis = (model', Ok ()) → valid_axis axis.
Proof.
  unfold to_dense_prediction_model, valid_axis.
  by destruct (forallb _ (elements axis)).
Qed.

Lemma elem_of_reduced (a : Z) (axis : list Z) :
  a ∈ axis → a - 2 ∈ (λ ax, ax - 2) <$> axis.
Proof. intros H. apply list_elem_of_fmap. eauto. Qed.

Lemma non_unit_not_all model :
  Exists non_unit_dilation model → ¬ Forall unit_or_absent model.
Proof.
  rewrite Exists_exists, Forall_forall.
  intros (m & Hm & d & Hd & Hne) Hall. exact (Hne (Hall m Hm d Hd)).
Qed.

(** C1, as the code has it.  In a chain of modules that each carry a unit
    dilation and a stride, the conversion succeeds and the dilation written
    on module [k] (counted from 0) on a selected axis [a] is the product of
    the strides of the modules before [k] on that axis, reduced to a signed
    64-bit integer; it is the product itself when the product is below
    2^63. *)
Theorem dilation_is_upstream_stride model axis a k m :
  Forall chain_module model →
  valid_axis axis →
  a ∈ elements axis →
  model !! k = Some m →
  ∃ model' m' new_dilation,
    to_dense_prediction_model model axis = (model', Ok ()) ∧
    model' !! k = Some m' ∧
    dilation m' = Some (ATuple new_dilation) ∧
    new_dilation !! Z.to_nat (a - 2)
    = Some (wrap64 (upstream_stride (Z.to_nat (a - 2)) model k)) ∧
    (in_int64 (upstream_stride (Z.to_nat (a - 2)) model k) = true →
     new_dilation !! Z.to_nat (a - 2)
     = Some (upstream_stride (Z.to_nat (a - 2)) model k)).
Proof.
  intros Hchain Hvalid Ha Hk.
  rewrite to_dense_prediction_model_valid by done.
  pose proof (axes01_reduce _ Hvalid) as Hax.
  destruct (convert_modules_chain _ model Hax Hchain 1 1) as (model' & Hconv & Hdil);
    [done .. |].
  destruct (lookup_lt_is_Some_2 model' k) as [m' Hm'].
  { rewrite (convert_modules_length _ _ _ _ _ Hconv). by eapply lookup_lt_Some. }
  specialize (Hdil k m' Hm'). rewrite !Z.mul_1_l in Hdil.
  apply elem_of_reduced in Ha as Ha'.
  eexists model', m', _. do 3 (split; [done |]).
  assert (∀ d0 d1 : Z,
            [if bool_decide (0 ∈ (λ ax, ax - 2) <$> elements axis) then d0 else 1;
             if bool_decide (1 ∈ (λ ax, ax - 2) <$> elements axis) then d1 else 1]
            !! Z.to_nat (a - 2)
            = Some (if decide (a - 2 = 0) then d0 else d1)) as Hentry.
  { intros d0 d1. destruct (axes01_elem _ _ Hax Ha') as [Heq | Heq]; rewrite Heq in *.
    - change (Z.to_nat 0) with 0%nat. cbn. by rewrite bool_decide_eq_true_2.
    - change (Z.to_nat 1) with 1%nat. cbn. by rewrite bool_decide_eq_true_2. }
  assert ((if decide (a - 2 = 0) then wrap64 (upstream_stride 0 model k)
           else wrap64 (upstream_stride 1 model k))
          = wrap64 (upstream_stride (Z.to_nat (a - 2)) model k)) as Hwrap.
  { destruct (axes01_elem _ _ Hax Ha') as [Heq | Heq]; rewrite Heq; done. }
  rewrite Hentry, Hwrap. split; [done |].
  intros Hv. by rewrite wrap64_id.
Qed.

Lemma chain_module_int d z :
  unit_dilation d = true → in_int64 z = true →
  chain_module (NnModule (Some d) (Some (AInt z))).
Proof. intros Hd Hz. split; [by exists d | left; by exists z]. Qed.

Lemma chain_module_pair d a b :
  unit_dilation d = true → in_int64 a = true → in_int64 b = true →
  chain_module (NnModule (Some d) (Some (ATuple [a; b]))).
Proof. intros Hd Ha Hb. split; [by exists d | right; by exists a, b]. Qed.

Lemma dilation_is_upstream_stride_witness :
  ∃ model' m' new_dilation,
    to_dense_prediction_model
      [NnModule (Some (ATuple [1; 1])) (Some (ATuple [2; 3]));
       NnModule (Some (AInt 1)) (Some (AInt 5));
       NnModule (Some (ATuple [1; 1])) (Some (ATuple [1; 1]))]
      (ATuple [2; 3]) = (model', Ok ()) ∧
    model' !! 2%nat = Some m' ∧
    dilation m' = Some (ATuple new_dilation) ∧
    new_dilation !! 1%nat = Some 15.
Proof.
  destruct (dilation_is_upstream_stride
              [NnModule (Some (ATuple [1; 1])) (Some (ATuple [2; 3]));
               NnModule (Some (AInt 1)) (Some (AInt 5));
               NnModule (Some (ATuple [1; 1])) (Some (ATuple [1; 1]))]
              (ATuple [2; 3]) 3 2
              (NnModule (Some (ATuple [1; 1])) (Some (ATuple [1; 1]))))
    as (model' & m' & new_dilation & H1 & H2 & H3 & H4 & H5).
  - repeat first [apply Forall_nil_2 | apply Forall_cons_2];
      first [apply chain_module_pair | apply chain_module_int]; reflexivity.
  - reflexivity.
  - apply list_elem_of_In. simpl. auto.
  - reflexivity.
  - exists model', m', new_dilation. split_and!; [done .. |].
    apply H5. reflexivity.
Defined.

(** C1 as stated fails when the product leaves 64 bits: after 64 modules of
    stride 2 the dilation written on the next module is 0, and the product
    of the strides before it is 2^64. *)
Lemma dilation_product_overflows :
  let model :=
    replicate 64 (NnModule (Some (ATuple [1; 1])) (Some (ATuple [2; 2])))
    ++ [NnModule (Some (ATuple [1; 1])) (Some (ATuple [1; 1]))] in
  Forall chain_module model ∧
  (to_dense_prediction_model model (ATuple [2; 3])).2 = Ok () ∧
  dilation <$> (to_dense_prediction_model model (ATuple [2; 3])).1 !! 64%nat
  = Some (Some (ATuple [0; 0])) ∧
  upstream_stride 0 model 64 = 2 ^ 64 ∧
  0 ≠ upstream_stride 0 model 64.
Proof.
  split_and!.
  - apply Forall_app. split; [apply Forall_replicate | apply Forall_singleton];
      apply chain_module_pair; reflexivity.
  - vm_compute. reflexivity.
  - vm_compute. reflexivity.
  - vm_compute. reflexivity.
  - vm_compute. discriminate.
Qed.

(** C6, as the code has it.  After a successful conversion, a second
    conversion with the same [axis] raises the assertion on the dilation
    when some module carries a dilation other than (1, 1); when no module
    does, it raises nothing and leaves every module as it is. *)
Theorem second_conversion model axis model' :
  to_dense_prediction_model model axis = (model', Ok ()) →
  (Exists non_unit_dilation model' →
   (to_dense_prediction_model model' axis).2 = Raise (AssertionError dilation_msg)) ∧
  (Forall unit_or_absent model' →
   to_dense_prediction_model model' axis = (model', Ok ())).
Proof.
  intros Hconv.
  pose proof (to_dense_prediction_model_ok _ _ _ Hconv) as Hvalid.
  rewrite to_dense_prediction_model_valid in Hconv |- * by done.
  pose proof (axes01_reduce _ Hvalid) as Hax.
  apply convert_modules_ok in Hconv; [| done].
  destruct (convert_modules_again _ model' Hax Hconv 1 1) as [Hsame Hraise]; [done .. |].
  split; [| done].
  intros Hex. by apply Hraise, non_unit_not_all.
Qed.

Lemma second_conversion_witness :
  (to_dense_prediction_model
     [NnModule (Some (ATuple [1; 1])) (Some (ATuple [1; 1]));
      NnModule (Some (ATuple [2; 2])) (Some (ATuple [1; 1]))]
     (ATuple [2; 3])).2 = Raise (AssertionError dilation_msg).
Proof.
  apply (second_conversion
           [NnModule (Some (ATuple [1; 1])) (Some (ATuple [2; 2]));
            NnModule (Some (ATuple [1; 1])) (Some (ATuple [3; 3]))]
           (ATuple [2; 3])).
  - vm_compute. reflexivity.
  - apply Exists_cons_tl, Exists_cons_hd.
    exists (ATuple [2; 2]). split; [reflexivity | discriminate].
Defined.

(** C6 as stated fails: a network whose only module with a stride and a
    dilation comes first is converted twice without an error. *)
Lemma second_conversion_can_succeed :
  let model :=
    [NnModule None None;
     NnModule (Some (ATuple [1; 1])) (Some (ATuple [2; 2]));
     NnModule None None] in
  let model' :=
    [NnModule None None;
     NnModule (Some (ATuple [1; 1])) (Some (ATuple [1; 1]));
     NnModule None None] in
  to_dense_prediction_model model (ATuple [2; 3]) = (model', Ok ()) ∧
  to_dense_prediction_model model' (ATuple [2; 3]) = (model', Ok ()) ∧
  (to_dense_prediction_model model' (ATuple [2; 3])).2
  ≠ Raise (AssertionError dilation_msg).
Proof. split_and!; [vm_compute; reflexivity .. | vm_compute; discriminate]. Qed.

(** ** Properties of [aggregate_probas] *)

Local Open Scope nat_scope.

(** Blocks of one length laid end to end: item [r] of block [q] is at
    [q * m + r]. *)
Lemma flat_map_seq_lookup {A} (g : nat → list A) (m : nat) :
  (∀ i, length (g i) = m) →
  ∀ n s q r, q < n → r < m →
  flat_map g (seq s n) !! (q * m + r) = g (s + q) !! r.
Proof.
  intros Hlen. induction n as [| n IH]; intros s q r Hq Hr; [lia |].
  cbn [seq flat_map]. destruct q as [| q].
  - rewrite lookup_app_l by (rewrite Hlen; lia). by rewrite Nat.add_0_r.
  - rewrite lookup_app_r by (rewrite Hlen; cbn; lia).
    rewrite Hlen. replace (S q * m + r - m) with (q * m + r) by (cbn; lia).
    rewrite IH by lia. by replace (S s + q) with (s + S q) by lia.
Qed.

Lemma flat_map_seq_length {A} (g : nat → list A) (m : nat) :
  (∀ i, length (g i) = m) → ∀ n s, length (flat_map g (seq s n)) = n * m.
Proof.
  intros Hlen. induction n as [| n IH]; intros s; [done |].
  cbn [seq flat_map]. rewrite length_app, Hlen, IH. lia.
Qed.

Lemma ravel3_lookup {T} n0 n1 n2 (f : nat → nat → nat → T) a b c :
  a < n0 → b < n1 → c < n2 →
  ravel3 n0 n1 n2 f !! (a * (n1 * n2) + (b * n2 + c)) = Some (f a b c).
Proof.
  intros Ha Hb Hc. unfold ravel3.
  assert (∀ i j, length (f i j <$> seq 0 n2) = n2) as Hrow
    by (intros; by rewrite length_fmap, length_seq).
  assert (∀ i, length (flat_map (λ j, f i j <$> seq 0 n2) (seq 0 n1)) = n1 * n2) as Hblock
    by (intros; by apply flat_map_seq_length).
  rewrite (flat_map_seq_lookup _ (n1 * n2)) by (done || nia).
  rewrite (flat_map_seq_lookup _ n2) by done.
  rewrite list_lookup_fmap, lookup_seq_lt by done. done.
Qed.

Lemma ravel3_length {T} n0 n1 n2 (f : nat → nat → nat → T) :
  length (ravel3 n0 n1 n2 f) = n0 * (n1 * n2).
Proof.
  unfold ravel3. apply flat_map_seq_length. intros i.
  apply flat_map_seq_length. intros j. by rewrite length_fmap, length_seq.
Qed.

Lemma view_item_at {T} (v : strided T) i c t (n : nat) :
  (Z.of_nat i * (strides v).1.1 + Z.of_nat c * (strides v).1.2
   + Z.of_nat t * (strides v).2 = Z.of_nat n)%Z →
  view_item v i c t = buffer v !! n.
Proof.
  unfold view_item. destruct (strides v) as [[s0 s1] s2]. cbn. intros ->.
  rewrite Nat2Z.id. by destruct (Z.ltb_spec (Z.of_nat n) 0); [lia |].
Qed.


Lemma in_int64_true z : in_int64 z = true ↔ (- 2 ^ 63 ≤ z < 2 ^ 63)%Z.
Proof. unfold in_int64. rewrite andb_true_iff, Z.leb_le, Z.ltb_lt. done. Qed.

Lemma nonempty3 (a b c : nat) : 1 ≤ a → 1 ≤ b → 1 ≤ c → a * b * c ≠ 0.
Proof. intros Ha Hb Hc. apply Nat.neq_mul_0. split; [apply Nat.neq_mul_0 |]; lia. Qed.

Lemma nonempty3_inv (a b c : nat) : a * b * c ≠ 0 → 1 ≤ a ∧ 1 ≤ b ∧ 1 ≤ c.
Proof. intros [[Ha Hb]%Nat.neq_mul_0 Hc]%Nat.neq_mul_0. lia. Qed.

(** The strides of an array that takes [n] items fit when its bytes do. *)
Lemma stride_in_int64 (item_size : positive) (n : nat) (s : Z) :
  in_int64 (Z.pos item_size * Z.of_nat n) = true →
  (- Z.of_nat n ≤ s ≤ Z.of_nat n)%Z →
  in_int64 (Z.pos item_size * s) = true.
Proof. rewrite !in_int64_true. intros Hn Hs. nia. Qed.

Section AggregationProperties.
Context {T : Type} (zero : T) (add : T → T → T) (lsm : list T → nat → T).

Lemma np_pad_nbytes (x : np_array T) n_rows n_classes n_windows pad :
  nbytes (np_pad zero x n_rows n_classes n_windows pad)
  = (Z.pos (itemsize x) * Z.of_nat (n_rows * n_classes * (n_windows + pad)))%Z.
Proof.
  unfold nbytes, np_pad.
  destruct (fnc x); cbn [buffer item_bytes]; rewrite ravel3_length; do 2 f_equal; lia.
Qed.

Lemma np_pad_strides (x : np_array T) n_rows n_classes n_windows pad :
  strides (np_pad zero x n_rows n_classes n_windows pad)
  = if decide (n_rows * n_classes * (n_windows + pad) = 0) then (0, 0, 0)%Z
    else if fnc x then (1, Z.of_nat n_rows, Z.of_nat (n_rows * n_classes))%Z
    else (Z.of_nat (n_classes * (n_windows + pad)), Z.of_nat (n_windows + pad), 1)%Z.
Proof. unfold np_pad. by destruct (fnc x), (decide _). Qed.

Lemma np_pad_buffer (x : np_array T) n_rows n_classes n_windows pad :
  buffer (np_pad zero x n_rows n_classes n_windows pad)
  = if fnc x
    then ravel3 (n_windows + pad) n_classes n_rows
           (λ t c i, padded_item zero (contents x) n_windows i c t)
    else ravel3 n_rows n_classes (n_windows + pad)
           (padded_item zero (contents x) n_windows).
Proof. unfold np_pad. by destruct (fnc x). Qed.

Lemma np_pad_dims (x : np_array T) n_rows n_classes n_windows pad :
  dims (np_pad zero x n_rows n_classes n_windows pad)
  = (n_rows, n_classes, n_windows + pad).
Proof. unfold np_pad. by destruct (fnc x). Qed.

Lemma np_pad_item_bytes (x : np_array T) n_rows n_classes n_windows pad :
  item_bytes (np_pad zero x n_rows n_classes n_windows pad) = itemsize x.
Proof. unfold np_pad. by destruct (fnc x). Qed.

(** The first stride that [_pad_shift_array] asks for, in bytes. *)
Lemma np_pad_first_byte_stride (x : np_array T) n_rows n_classes n_windows pad stride :
  let o := strides (np_pad zero x n_rows n_classes n_windows pad) in
  (Z.pos (itemsize x) * (o.1.1 - stride * o.2))%Z
  = first_byte_stride x n_rows n_classes (n_windows + pad) stride.
Proof.
  cbn zeta. rewrite np_pad_strides. unfold first_byte_stride.
  destruct (decide _); [| destruct (fnc x)]; cbn [fst snd]; f_equal; lia.
Qed.

(** The strides of the padded array itself fit when its bytes do. *)
Lemma np_pad_strides_fit (x : np_array T) n_rows n_classes n_windows pad :
  let p := np_pad zero x n_rows n_classes n_windows pad in
  in_int64 (nbytes p) = true →
  in_int64 (Z.pos (item_bytes p) * (strides p).1.2) = true ∧
  in_int64 (Z.pos (item_bytes p) * (strides p).2) = true.
Proof.
  cbn zeta. rewrite np_pad_nbytes, np_pad_item_bytes, np_pad_strides. intros Hbytes.
  destruct (decide _) as [Hempty | [Hr [Hc Hl]]%nonempty3_inv]; cbn [fst snd].
  - by rewrite Z.mul_0_r.
  - assert (1 ≤ n_rows * n_classes) as Hrc by nia.
    assert (n_windows + pad ≤ n_rows * n_classes * (n_windows + pad)) by nia.
    assert (n_rows * n_classes ≤ n_rows * n_classes * (n_windows + pad)) by nia.
    assert (n_rows ≤ n_rows * n_classes) by nia.
    destruct (fnc x); cbn [fst snd]; split;
      apply (stride_in_int64 _ _ _ Hbytes); lia.
Qed.

Lemma as_strided_unfold (p : strided T) s0 s1 s2 :
  as_strided p (s0, s1, s2)
  = if in_int64 (nbytes p)
       && negb (in_int64 (Z.pos (item_bytes p) * s0)
                && in_int64 (Z.pos (item_bytes p) * s1)
                && in_int64 (Z.pos (item_bytes p) * s2))
    then Raise OverflowError
    else Ok {| dims := dims p; strides := (s0, s1, s2); buffer := buffer p;
               item_bytes := item_bytes p |}.
Proof. done. Qed.

Lemma as_strided_inv (p v : strided T) new_strides :
  as_strided p new_strides = Ok v →
  dims v = dims p ∧ strides v = new_strides ∧ buffer v = buffer p.
Proof.
  unfold as_strided. destruct new_strides as [[s0 s1] s2].
  destruct (_ && _); [done |]. by intros [= <-].
Qed.

Lemma pad_shift_array_unfold (x : np_array T) n_rows n_classes n_windows stride :
  shape (contents x) = [n_rows; n_classes; n_windows] →
  (0 ≤ (Z.of_nat n_rows - 1) * stride)%Z →
  _pad_shift_array zero x stride
  = let p := np_pad zero x n_rows n_classes n_windows (pad_of n_rows stride) in
    as_strided p ((strides p).1.1 - stride * (strides p).2, (strides p).1.2,
                  (strides p).2)%Z.
Proof.
  intros Hshape Hpad. unfold _pad_shift_array. rewrite Hshape.
  by destruct (Z.ltb_spec ((Z.of_nat n_rows - 1) * stride) 0); [lia |].
Qed.

Lemma pad_shift_array_padding (x : np_array T) n_rows n_classes n_windows stride v :
  shape (contents x) = [n_rows; n_classes; n_windows] →
  _pad_shift_array zero x stride = Ok v →
  (0 ≤ (Z.of_nat n_rows - 1) * stride)%Z.
Proof.
  intros Hshape. unfold _pad_shift_array. rewrite Hshape.
  by destruct (Z.ltb_spec ((Z.of_nat n_rows - 1) * stride) 0).
Qed.

(** The view is built when its first stride fits. *)
Lemma pad_shift_array_ok (x : np_array T) n_rows n_classes n_windows stride :
  shape (contents x) = [n_rows; n_classes; n_windows] →
  (0 ≤ (Z.of_nat n_rows - 1) * stride)%Z →
  view_fits x n_rows n_classes n_windows stride →
  ∃ v, _pad_shift_array zero x stride = Ok v ∧
       dims v = (n_rows, n_classes, n_windows + pad_of n_rows stride).
Proof.
  intros Hshape Hpad Hfits. rewrite (pad_shift_array_unfold x _ _ _ stride Hshape Hpad).
  cbn zeta. rewrite as_strided_unfold.
  destruct (in_int64 (nbytes _)) eqn:Hbytes; cbn [andb].
  - destruct (np_pad_strides_fit x n_rows n_classes n_windows (pad_of n_rows stride) Hbytes)
      as [-> ->].
    rewrite np_pad_item_bytes, np_pad_first_byte_stride.
    rewrite np_pad_nbytes in Hbytes. rewrite (Hfits Hbytes).
    cbn. eexists. split; [done |]. apply np_pad_dims.
  - eexists. split; [done |]. apply np_pad_dims.
Qed.


(** The strides and the buffer of the view, when there is an item. *)
Lemma pad_shift_array_view (x : np_array T) n_rows n_classes n_windows stride v :
  shape (contents x) = [n_rows; n_classes; n_windows] →
  _pad_shift_array zero x stride = Ok v →
  1 ≤ n_rows → 1 ≤ n_classes → 1 ≤ n_windows + pad_of n_rows stride →
  if fnc x
  then strides v = (1 - stride * Z.of_nat (n_rows * n_classes), Z.of_nat n_rows,
                    Z.of_nat (n_rows * n_classes))%Z ∧
       buffer v = ravel3 (n_windows + pad_of n_rows stride) n_classes n_rows
                    (λ t c i, padded_item zero (contents x) n_windows i c t)
  else strides v = (Z.of_nat (n_classes * (n_windows + pad_of n_rows stride)) - stride * 1,
                    Z.of_nat (n_windows + pad_of n_rows stride), 1)%Z ∧
       buffer v = ravel3 n_rows n_classes (n_windows + pad_of n_rows stride)
                    (padded_item zero (contents x) n_windows).
Proof.
  intros Hshape Hv Hr Hc Hl.
  pose proof (pad_shift_array_padding x _ _ _ stride v Hshape Hv) as Hpad.
  rewrite (pad_shift_array_unfold x _ _ _ stride Hshape Hpad) in Hv.
  apply as_strided_inv in Hv as (_ & -> & ->).
  rewrite np_pad_strides, np_pad_buffer.
  rewrite decide_False by (by apply nonempty3).
  by destruct (fnc x).
Qed.

(** Reading the shifted view at or after the start of row [i], in either
    memory order: the item of the padded row, [i * stride] earlier. *)
Lemma view_item_shifted (x : np_array T) n_rows n_classes n_windows stride v i c t :
  shape (contents x) = [n_rows; n_classes; n_windows] →
  _pad_shift_array zero x stride = Ok v →
  i < n_rows → c < n_classes →
  (0 ≤ Z.of_nat t - Z.of_nat i * stride
   < Z.of_nat (n_windows + pad_of n_rows stride))%Z →
  view_item v i c t
  = Some (padded_item zero (contents x) n_windows i c
            (Z.to_nat (Z.of_nat t - Z.of_nat i * stride))).
Proof.
  intros Hshape Hv Hi Hc Ht.
  pose proof (pad_shift_array_view x _ _ _ stride v Hshape Hv) as Hview.
  set (len := n_windows + pad_of n_rows stride) in *.
  set (t' := Z.to_nat (Z.of_nat t - Z.of_nat i * stride)).
  assert (Z.of_nat t' = Z.of_nat t - Z.of_nat i * stride)%Z as Ht'
    by (unfold t'; lia).
  assert (t' < len) as Hlt by lia.
  specialize (Hview ltac:(lia) ltac:(lia) ltac:(lia)).
  destruct (fnc x); destruct Hview as [Hstr Hbuf].
  - rewrite (view_item_at v i c t (t' * (n_classes * n_rows) + (c * n_rows + i))).
    + rewrite Hbuf. by rewrite ravel3_lookup.
    + rewrite Hstr. cbn [fst snd]. rewrite !Nat2Z.inj_add, !Nat2Z.inj_mul, Ht'. ring.
  - rewrite (view_item_at v i c t (i * (n_classes * len) + (c * len + t'))).
    + rewrite Hbuf. by rewrite ravel3_lookup.
    + rewrite Hstr. cbn [fst snd]. rewrite !Nat2Z.inj_add, !Nat2Z.inj_mul, Ht'. ring.
Qed.

(** In C order, reading the shifted view before the start of row [i]
    falls into the zeros that end the previous row of the buffer. *)
Lemma view_item_before_c_order (x : np_array T) n_rows n_classes n_windows stride v i c t :
  shape (contents x) = [n_rows; n_classes; n_windows] →
  fnc x = false →
  _pad_shift_array zero x stride = Ok v →
  (0 ≤ stride)%Z →
  i < n_rows → c < n_classes →
  (Z.of_nat t < Z.of_nat i * stride)%Z →
  view_item v i c t = Some zero.
Proof.
  intros Hshape Hfnc Hv Hstride Hi Hc Ht.
  assert (0 ≤ (Z.of_nat n_rows - 1) * stride)%Z as Hpad by nia.
  pose proof (pad_shift_array_view x _ _ _ stride v Hshape Hv) as Hview.
  set (len := n_windows + pad_of n_rows stride) in *.
  set (d := Z.to_nat (Z.of_nat i * stride - Z.of_nat t)).
  assert (Z.of_nat d = Z.of_nat i * stride - Z.of_nat t)%Z as Hd by (unfold d; lia).
  assert (1 ≤ d ≤ pad_of n_rows stride) as [Hd1 Hd2].
  { split; [lia |]. apply Nat2Z.inj_le. rewrite Hd. unfold pad_of.
    rewrite Z2Nat.id by done. nia. }
  specialize (Hview ltac:(lia) ltac:(lia) ltac:(unfold len; lia)).
  rewrite Hfnc in Hview. destruct Hview as [Hstr Hbuf].
  assert (∀ a b, a < n_rows → b < n_classes →
            buffer v !! (a * (n_classes * len) + (b * len + (len - d))) = Some zero)
    as Hzero.
  { intros a b Ha Hb. rewrite Hbuf. rewrite ravel3_lookup by (done || lia).
    unfold padded_item. rewrite decide_False; [done | unfold len; lia]. }
  destruct c as [| c].
  - destruct i as [| i]; [lia |].
    rewrite (view_item_at v _ _ t
               (i * (n_classes * len) + ((n_classes - 1) * len + (len - d)))).
    + apply Hzero; lia.
    + rewrite Hstr. cbn [fst snd].
      rewrite !Nat2Z.inj_add, !Nat2Z.inj_mul, (Nat2Z.inj_sub len d) by (unfold len; lia).
      rewrite (Nat2Z.inj_sub n_classes 1) by lia.
      rewrite Hd. lia.
  - rewrite (view_item_at v _ _ t (i * (n_classes * len) + (c * len + (len - d)))).
    + apply Hzero; lia.
    + rewrite Hstr. cbn [fst snd].
      rewrite !Nat2Z.inj_add, !Nat2Z.inj_mul, (Nat2Z.inj_sub len d) by (unfold len; lia).
      rewrite Hd. lia.
Qed.


Lemma log_softmax_ok (x : np_array T) n_classes :
  shape (contents x) !! 1 = Some n_classes → n_classes ≠ 0 →
  ∃ log_probas,
    log_softmax lsm x 1 = Ok log_probas ∧
    shape (contents log_probas) = shape (contents x) ∧
    fnc log_probas = fnc x.
Proof.
  intros Hc Hne. unfold log_softmax. rewrite Hc.
  rewrite decide_False by done. eauto.
Qed.

Lemma log_softmax_layout (x log_probas : np_array T) axis :
  log_softmax lsm x axis = Ok log_probas →
  fnc log_probas = fnc x ∧ itemsize log_probas = itemsize x.
Proof.
  unfold log_softmax. destruct (shape (contents x) !! axis) as [n |]; [| done].
  destruct (decide (n = 0)); [done |]. by intros [= <-].
Qed.

Lemma view_fits_layout (x y : np_array T) n_rows n_classes n_windows stride :
  fnc y = fnc x → itemsize y = itemsize x →
  view_fits x n_rows n_classes n_windows stride →
  view_fits y n_rows n_classes n_windows stride.
Proof. unfold view_fits, first_byte_stride. by intros -> ->. Qed.

(** A stride between 0 and the length of the padded rows fits: the view
    starts each sequence inside the rows of the array. *)
Lemma view_fits_bounded (x : np_array T) n_rows n_classes n_windows stride :
  (0 ≤ stride ≤ Z.of_nat (n_windows + pad_of n_rows stride))%Z →
  view_fits x n_rows n_classes n_windows stride.
Proof.
  intros Hstride. unfold view_fits, first_byte_stride. cbn zeta.
  set (len := n_windows + pad_of n_rows stride) in *. intros Hbytes.
  destruct (decide _) as [Hempty | [Hr [Hc Hl]]%nonempty3_inv].
  - by rewrite Z.mul_0_r.
  - apply (stride_in_int64 _ _ _ Hbytes).
    rewrite !Nat2Z.inj_mul. destruct (fnc x); rewrite ?Nat2Z.inj_mul; nia.
Qed.

(** With one sequence nothing is padded. *)
Lemma view_fits_one_row (x : np_array T) n_classes n_windows stride :
  in_int64 (first_byte_stride x 1 n_classes n_windows stride) = true →
  view_fits x 1 n_classes n_windows stride.
Proof.
  intros Hfirst. unfold view_fits. cbn zeta.
  replace (pad_of 1 stride) with 0 by (unfold pad_of; lia).
  by rewrite Nat.add_0_r.
Qed.


Lemma sum_options_some (view : nat → option T) (g : nat → T) (l : list nat) :
  (∀ i, i ∈ l → view i = Some (g i)) →
  ∀ z, foldl (λ acc i, a ← acc; b ← view i; Some (add a b)) (Some z) l
       = Some (foldl add z (g <$> l)).
Proof.
  induction l as [| i l IH]; intros Hview z; [done |].
  cbn. rewrite (Hview i) by set_solver. cbn. apply IH. set_solver.
Qed.


Lemma sum_skips_zeros (P : nat → Prop) `{∀ i, Decision (P i)} (h : nat → T) l :
  (∀ a, add a zero = a) →
  ∀ z, foldl add z ((λ i, if decide (P i) then h i else zero) <$> l)
       = foldl add z (h <$> filter P l).
Proof.
  intros Hzero. induction l as [| i l IH]; intros z; [done |].
  cbn. rewrite IH. unfold filter at 2. cbn. destruct (decide (P i)); cbn.
  - done.
  - by rewrite Hzero.
Qed.

Lemma sum_axis0_item (v : strided T) n0 n1 n2 c t (g : nat → T) :
  dims v = (n0, n1, n2) →
  (∀ i, i < n0 → view_item v i c t = Some (g i)) →
  item (transpose (sum_axis0 zero add v)) [t; c]
  = Some (foldl add zero (g <$> seq 0 n0)).
Proof.
  intros Hdims Hview. unfold sum_axis0. rewrite Hdims. cbn.
  apply sum_options_some. intros i Hi%elem_of_seq. apply Hview. lia.
Qed.

Lemma sum_axis0_shape (v : strided T) n0 n1 n2 :
  dims v = (n0, n1, n2) → shape (transpose (sum_axis0 zero add v)) = [n2; n1].
Proof. intros Hdims. unfold sum_axis0. by rewrite Hdims. Qed.

Lemma aggregate_probas_ok (logits : np_array T) n_rows n_classes n_windows stride :
  shape (contents logits) = [n_rows; n_classes; n_windows] →
  n_classes ≠ 0 →
  (0 ≤ (Z.of_nat n_rows - 1) * stride)%Z →
  view_fits logits n_rows n_classes n_windows stride →
  ∃ log_probas v,
    log_softmax lsm logits 1 = Ok log_probas ∧
    shape (contents log_probas) = [n_rows; n_classes; n_windows] ∧
    fnc log_probas = fnc logits ∧
    _pad_shift_array zero log_probas stride = Ok v ∧
    dims v = (n_rows, n_classes, n_windows + pad_of n_rows stride) ∧
    aggregate_probas zero add lsm logits stride
    = Ok (transpose (sum_axis0 zero add v)).
Proof.
  intros Hshape Hne Hpad Hfits.
  destruct (log_softmax_ok logits n_classes) as (log_probas & Hls & Hshape' & Hfnc);
    [by rewrite Hshape | done |].
  rewrite Hshape in Hshape'.
  destruct (log_softmax_layout _ _ _ Hls) as [_ Hsize].
  destruct (pad_shift_array_ok log_probas _ _ _ stride Hshape' Hpad) as (v & Hv & Hdims);
    [by apply (view_fits_layout logits) |].
  exists log_probas, v. split_and!; [done .. |].
  unfold aggregate_probas. rewrite Hls. cbn. by rewrite Hv.
Qed.


(** C5, as the code has it.  With one sequence the output is the
    log-softmax of that sequence, with the class and window axes exchanged,
    for every stride, positive or not, for which the first stride of the
    view, [orig_strides[0] - stride * orig_strides[2]] bytes, fits in a C
    long. *)
Theorem aggregate_probas_one_sequence (logits : np_array T) n_classes n_windows stride :
  (∀ a, add zero a = a) →
  shape (contents logits) = [1; n_classes; n_windows] →
  1 ≤ n_classes →
  in_int64 (first_byte_stride logits 1 n_classes n_windows stride) = true →
  ∃ log_probas out,
    log_softmax lsm logits 1 = Ok log_probas ∧
    aggregate_probas zero add lsm logits stride = Ok out ∧
    shape out = [n_windows; n_classes] ∧
    ∀ t c, t < n_windows → c < n_classes →
      item out [t; c] = Some (item (contents log_probas) [0; c; t]).
Proof.
  intros Hzero Hshape Hclasses Hfirst.
  destruct (aggregate_probas_ok logits _ _ _ stride Hshape)
    as (log_probas & v & Hls & Hshape' & _ & Hv & Hdims & ->);
    [lia | lia | by apply view_fits_one_row |].
  assert (pad_of 1 stride = 0) as Hpad by (unfold pad_of; lia).
  rewrite Hpad, Nat.add_0_r in Hdims.
  exists log_probas. eexists. split_and!; [done | done | | ].
  - by rewrite (sum_axis0_shape _ _ _ _ Hdims).
  - intros t c Ht Hc.
    rewrite (sum_axis0_item _ _ _ _ _ _
               (λ _, item (contents log_probas) [0; c; t]) Hdims).
    + cbn. by rewrite Hzero.
    + intros i Hi. replace i with 0 by lia.
      rewrite (view_item_shifted log_probas _ _ _ stride v 0 c t Hshape' Hv)
        by (rewrite ?Hpad; lia).
      change (Z.of_nat 0) with 0%Z. rewrite Z.mul_0_l, Z.sub_0_r, Nat2Z.id.
      unfold padded_item. by rewrite decide_True by lia.
Qed.

(** C10.  With stride 0 nothing is checked, nothing is padded and nothing
    is shifted: the output at [t, c] is the sum over all the sequences. *)
Theorem aggregate_probas_stride_0 (logits : np_array T) n_rows n_classes n_windows :
  shape (contents logits) = [n_rows; n_classes; n_windows] →
  1 ≤ n_classes →
  ∃ log_probas out,
    log_softmax lsm logits 1 = Ok log_probas ∧
    aggregate_probas zero add lsm logits 0 = Ok out ∧
    shape out = [n_windows; n_classes] ∧
    ∀ t c, t < n_windows → c < n_classes →
      item out [t; c]
      = Some (sum_list zero add
                ((λ i, item (contents log_probas) [i; c; t]) <$> seq 0 n_rows)).
Proof.
  intros Hshape Hclasses.
  destruct (aggregate_probas_ok logits _ _ _ 0%Z Hshape)
    as (log_probas & v & Hls & Hshape' & _ & Hv & Hdims & ->);
    [lia | lia | apply view_fits_bounded; lia |].
  assert (pad_of n_rows 0 = 0) as Hpad by (unfold pad_of; lia).
  rewrite Hpad, Nat.add_0_r in Hdims.
  exists log_probas. eexists. split_and!; [done | done | | ].
  - by rewrite (sum_axis0_shape _ _ _ _ Hdims).
  - intros t c Ht Hc.
    rewrite (sum_axis0_item _ _ _ _ _ _
               (λ i, item (contents log_probas) [i; c; t]) Hdims); [done |].
    intros i Hi.
    rewrite (view_item_shifted log_probas _ _ _ 0%Z v i c t Hshape' Hv)
      by (rewrite ?Hpad; lia).
    rewrite Z.mul_0_r, Z.sub_0_r, Nat2Z.id.
    unfold padded_item. by rewrite decide_True by lia.
Qed.



End AggregationProperties.

Section RankCheck.
Context {T : Type} (zero : T) (add : T → T → T) (lsm : list T → nat → T).

Lemma pad_shift_array_rank (x : np_array T) stride :
  length (shape (contents x)) ≠ 3 →
  _pad_shift_array zero x stride = Raise NotImplementedError.
Proof.
  unfold _pad_shift_array.
  destruct (shape (contents x)) as [| n0 [| n1 [| n2 [| n3 l]]]]; cbn; done.
Qed.

(** C7, as the code has it.  An array of rank 0 or 1 is rejected by the
    log-softmax over axis 1, with an axis error; an array of rank 2, or of
    rank 4 and more, whose axis 1 is not empty is rejected by
    [_pad_shift_array], with [NotImplementedError]. *)
Theorem aggregate_probas_rank (logits : np_array T) stride :
  (length (shape (contents logits)) ≤ 1 →
   aggregate_probas zero add lsm logits stride = Raise AxisError) ∧
  (2 ≤ length (shape (contents logits)) →
   length (shape (contents logits)) ≠ 3 →
   shape (contents logits) !! 1 ≠ Some 0 →
   aggregate_probas zero add lsm logits stride = Raise NotImplementedError).
Proof.
  unfold aggregate_probas. split.
  - intros Hlen. unfold log_softmax.
    rewrite lookup_ge_None_2 by lia. done.
  - intros Hlen Hne Hclasses.
    destruct (shape (contents logits) !! 1) as [n |] eqn:Hn.
    + destruct (log_softmax_ok lsm logits n Hn) as (log_probas & -> & Hshape & _);
        [congruence |].
      cbn. rewrite pad_shift_array_rank by (by rewrite Hshape). done.
    + apply lookup_ge_None_1 in Hn. lia.
Qed.

End RankCheck.

Lemma aggregate_probas_rank_witness :
  aggregate_probas 0%Z Z.add lsm_example (logits_example [4] false) 1 = Raise AxisError ∧
  aggregate_probas 0%Z Z.add lsm_example (logits_example [4; 2] false) 1
  = Raise NotImplementedError.
Proof.
  split.
  - apply (aggregate_probas_rank 0%Z Z.add lsm_example (logits_example [4] false) 1).
    simpl. lia.
  - apply (aggregate_probas_rank 0%Z Z.add lsm_example (logits_example [4; 2] false) 1).
    + simpl. lia.
    + simpl. lia.
    + simpl. discriminate.
Defined.

(** C7 as stated fails for an array of rank 1: the error is the axis error
    of the log-softmax, not [NotImplementedError]. *)
Lemma aggregate_probas_rank_1 :
  length (shape (contents (logits_example [4] false))) ≠ 3 ∧
  aggregate_probas 0%Z Z.add lsm_example (logits_example [4] false) 1 = Raise AxisError ∧
  aggregate_probas 0%Z Z.add lsm_example (logits_example [4] false) 1
  ≠ Raise NotImplementedError.
Proof. split_and!; [simpl; lia | reflexivity | discriminate]. Qed.



Lemma aggregate_probas_one_sequence_witness :
  ∃ log_probas out,
    log_softmax lsm_example (logits_example [1; 2; 3] true) 1 = Ok log_probas ∧
    aggregate_probas 0%Z Z.add lsm_example (logits_example [1; 2; 3] true) 5 = Ok out ∧
    shape out = [3; 2] ∧
    ∀ t c, t < 3 → c < 2 →
      item out [t; c] = Some (item (contents log_probas) [0; c; t]).
Proof.
  apply (aggregate_probas_one_sequence 0%Z Z.add lsm_example
           (logits_example [1; 2; 3] true) 2 3 5);
    [intros a; lia | reflexivity | lia | reflexivity].
Defined.

(** C5 as stated fails for the stride 2^61, here on one sequence in Fortran
    order: the log-softmax is computed, the strides of the array are
    (8, 8, 16) bytes, and the first stride of the view, 8 - 2^61 * 16 bytes,
    does not fit in a C long. *)
Lemma aggregate_probas_one_sequence_overflow :
  shape (contents (logits_example [1; 2; 3] true)) = [1; 2; 3] ∧
  (∃ log_probas, log_softmax lsm_example (logits_example [1; 2; 3] true) 1 = Ok log_probas) ∧
  first_byte_stride (logits_example [1; 2; 3] true) 1 2 3 (2 ^ 61) = (8 - 2 ^ 65)%Z ∧
  aggregate_probas 0%Z Z.add lsm_example (logits_example [1; 2; 3] true) (2 ^ 61)
  = Raise OverflowError.
Proof. split_and!; [reflexivity | by eexists | reflexivity | reflexivity]. Qed.

Lemma aggregate_probas_stride_0_witness :
  ∃ log_probas out,
    log_softmax lsm_example (logits_example [3; 2; 4] false) 1 = Ok log_probas ∧
    aggregate_probas 0%Z Z.add lsm_example (logits_example [3; 2; 4] false) 0 = Ok out ∧
    shape out = [4; 2] ∧
    ∀ t c, t < 4 → c < 2 →
      item out [t; c]
      = Some (sum_list 0%Z Z.add
                ((λ i, item (contents log_probas) [i; c; t]) <$> seq 0 3)).
Proof.
  apply (aggregate_probas_stride_0 0%Z Z.add lsm_example
           (logits_example [3; 2; 4] false) 3 2 4); [reflexivity | lia].
Defined.



(** C3 on logits in Fortran order, two sequences of two windows and two
    classes, stride 1: the padded buffer is in Fortran order, the first
    stride of the view is negative, the item [1, 0, 0] of the view is 3
    items before the buffer, and the output at position 0 is
    indeterminate, where the sum over the covering sequences is the
    log-probability of sequence 0. *)
Lemma aggregate_probas_fortran_order :
  let logits := logits_example [2; 2; 2] true in
  (∃ log_probas v out,
     log_softmax lsm_example logits 1 = Ok log_probas ∧
     _pad_shift_array 0%Z log_probas 1 = Ok v ∧
     strides v = (-3, 2, 4)%Z ∧
     length (buffer v) = 12 ∧
     view_item v 1 0 0 = None ∧
     aggregate_probas 0%Z Z.add lsm_example logits 1 = Ok out ∧
     shape out = [3; 2] ∧
     item out [0; 0] = None ∧
     covering 2 2 1 0 = [0] ∧
     sum_list 0%Z Z.add
       ((λ i, item (contents log_probas) [i; 0; Z.to_nat (Z.of_nat 0 - Z.of_nat i * 1)])
        <$> covering 2 2 1 0) = (-10)%Z).
Proof.
  eexists _, _, _. split_and!; [reflexivity | reflexivity | reflexivity ..].
Qed.

(** ** Properties of [TimeDistributed.forward] *)

Section TimeDistributedProperties.
Context {T Out : Type}.

Lemma mapM_result_ok {A B} (g : A → result B) (f : A → B) (l : list A) :
  (∀ a, a ∈ l → g a = Ok (f a)) → mapM g l = Ok (f <$> l).
Proof.
  induction l as [| a l IH]; intros Hg; [done |].
  cbn. rewrite (Hg a) by set_solver. cbn. rewrite IH by set_solver. done.
Qed.

(** C8.  The windows [x[:, i]] go through the feature extractor one by
    one, and the classifier receives, for each batch element [b], the
    flattened features of window [i] in the [i]-th slice of its input. *)
Theorem forward_concatenates (self : time_distributed T Out) (x : ndarray T)
    batch seq_len window_shape (f : nat → ndarray T) n feat_shape :
  shape x = batch :: seq_len :: window_shape →
  1 ≤ seq_len →
  (∀ i, i < seq_len →
     feat_extractor self (select1 x i) = Ok (f i) ∧ shape (f i) = n :: feat_shape) →
  ∃ feats,
    forward self x = clf self feats ∧
    shape feats = [n; seq_len * foldr Nat.mul 1 feat_shape] ∧
    ∀ b i j, i < seq_len → j < foldr Nat.mul 1 feat_shape →
      item feats [b; i * foldr Nat.mul 1 feat_shape + j]
      = item (f i) (b :: unravel feat_shape j).
Proof.
  intros Hshape Hlen Hf. unfold forward. rewrite Hshape. cbn [lookup list_lookup].
  rewrite (mapM_result_ok _ f) by (intros i Hi%elem_of_seq; apply Hf; lia).
  cbn [mbind result_bind].
  destruct seq_len as [| seq_len]; [lia |].
  cbn [seq fmap list_fmap]. unfold torch_stack1.
  fold (list_fmap _ _ f (seq 1 seq_len)).
  rewrite decide_False by (destruct (Hf 0) as [_ ->]; [lia | done]).
  assert (forallb (λ g, bool_decide (shape g = shape (f 0))) (f 0 :: (f <$> seq 1 seq_len))
          = true) as ->.
  { apply forallb_forall. intros g Hg. apply bool_decide_eq_true.
    change (f 0 :: (f <$> seq 1 seq_len)) with (f <$> seq 0 (S seq_len)) in Hg.
    apply list_elem_of_In, list_elem_of_fmap in Hg as (i & -> & Hi%elem_of_seq).
    destruct (Hf i) as [_ ->]; [lia |]. by destruct (Hf 0) as [_ ->]; [lia |]. }
  cbn [negb]. destruct (Hf 0) as [_ Hshape0]; [lia |].
  eexists. split; [done |]. rewrite Hshape0. split.
  - cbn. rewrite !take_0, !drop_0. cbn. by rewrite length_fmap, length_seq.
  - intros b i j Hi Hj. cbn. rewrite !take_0, !drop_0. cbn. rewrite drop_0.
    assert ((i * foldr Nat.mul 1 feat_shape + j) `div` foldr Nat.mul 1 feat_shape = i)
      as -> by (rewrite Nat.div_add_l by lia; rewrite Nat.div_small by done; lia).
    assert ((i * foldr Nat.mul 1 feat_shape + j) `mod` foldr Nat.mul 1 feat_shape = j)
      as -> by (rewrite Nat.add_comm, Nat.Div0.mod_add; by apply Nat.mod_small).
    change (f 0 :: (f <$> seq 1 seq_len)) with (f <$> seq 0 (S seq_len)).
    rewrite list_lookup_fmap, lookup_seq_lt by done. done.
Qed.

End TimeDistributedProperties.

Lemma forward_concatenates_witness :
  ∃ feats,
    forward time_distributed_example windows_example
    = clf time_distributed_example feats ∧
    shape feats = [2; 6] ∧
    item feats [1; 5] = (item windows_example [1; 2; 0; 1]%nat + 1)%Z.
Proof.
  destruct (forward_concatenates time_distributed_example windows_example 2 3 [1; 2]
              (λ i, {| shape := [2; 2];
                       item := λ idx,
                         (item (select1 windows_example i) [idx !!! 0; 0; idx !!! 1]%nat + 1)%Z |})
              2 [2])
    as (feats & Hforward & Hshape & Hitem).
  - reflexivity.
  - lia.
  - intros i Hi. split; reflexivity.
  - exists feats. split_and!; [done | done |].
    apply (Hitem 1 2 1); simpl; lia.
Defined.

(** ** Properties of [get_output_shape] *)

Section ShapeProbeProperties.
Context {T Dtype Device : Type} (one : T).

(** C9.  Without parameters [next(model.parameters())] raises
    [StopIteration]; with a first parameter [p] the model is called once,
    on the tensor of ones of shape (1, in_chans, input_window_samples)
    with the dtype and the device of [p], and the shape of its output is
    returned. *)
Theorem get_output_shape_spec (model : torch_model T Dtype Device)
    (in_chans input_window_samples : nat) :
  (parameters model = [] →
   get_output_shape one model in_chans input_window_samples = Raise StopIteration) ∧
  (∀ p rest, parameters model = p :: rest →
     get_output_shape one model in_chans input_window_samples
     = out ← call model
               (torch_ones one [1; in_chans; input_window_samples]
                  (p_dtype p) (p_device p));
       Ok (shape (t_values out))).
Proof.
  unfold get_output_shape. split.
  - by intros ->.
  - by intros p rest ->.
Qed.

End ShapeProbeProperties.

Lemma get_output_shape_spec_witness :
  get_output_shape 1%Z (model_example []) 22 1000 = Raise StopIteration ∧
  get_output_shape 1%Z (model_example [MkParameter true 0; MkParameter false 1]) 22 1000
  = Ok [1; 4; 991].
Proof.
  split.
  - apply (get_output_shape_spec 1%Z (model_example []) 22 1000). reflexivity.
  - rewrite (proj2 (get_output_shape_spec 1%Z
                      (model_example [MkParameter true 0; MkParameter false 1]) 22 1000)
               (MkParameter true 0) [MkParameter false 1] eq_refl).
    reflexivity.
Defined.

(** ** The conversion in closed form: properties *)

Local Open Scope Z_scope.

Lemma reduced_selected (a : Z) (axis : attr) :
  bool_decide (a - 2 ∈ (λ ax, ax - 2) <$> elements axis) = selected a axis.
Proof.
  apply bool_decide_ext. rewrite list_elem_of_fmap. split.
  - intros (b & Hb & Hin). by replace a with b by lia.
  - intros Hin. eauto.
Qed.

Lemma stride_on_no_stride i m : stride m = None → stride_on i m = 1.
Proof. unfold stride_on. by intros ->. Qed.

(** One module: what it raises, or what it becomes, does not depend on the
    strides met before it, but for the value of the dilation. *)
Lemma convert_module_run axis x y m :
  axes01 axis → in_int64 x = true → in_int64 y = true →
  match module_error (bool_decide (1 ∈ axis)) m with
  | Some e =>
      convert_module axis [x; y] m
      = (interrupted_module (bool_decide (0 ∈ axis)) (bool_decide (1 ∈ axis)) x y m,
         Raise e)
  | None =>
      convert_module axis [x; y] m
      = (converted_module (bool_decide (0 ∈ axis)) (bool_decide (1 ∈ axis)) x y m,
         Ok [wrap64 (x * stride_on 0 m); wrap64 (y * stride_on 1 m)])
  end.
Proof.
  intros Hax Hx Hy. destruct m as [dil str].
  assert (∀ dil' : option attr,
            match str ≫= stride_error (bool_decide (1 ∈ axis)) with
            | Some e =>
                stride_step axis [x; y] (NnModule dil' str)
                = ({| dilation := dil'; stride := normalised_stride str |}, Raise e)
            | None =>
                stride_step axis [x; y] (NnModule dil' str)
                = ({| dilation := dil';
                      stride := stride (converted_module (bool_decide (0 ∈ axis))
                                          (bool_decide (1 ∈ axis)) x y (NnModule dil str)) |},
                   Ok [wrap64 (x * stride_on 0 (NnModule dil str));
                       wrap64 (y * stride_on 1 (NnModule dil str))])
            end) as Hstride.
  { intros dil'.
    destruct str as [[z | l] |]; [| destruct l as [| a [| b [| c l]]] |];
      unfold stride_error, stride_step, np_imul, stride_on; cbn.
    - destruct (in_int64 z); cbn; [| done].
      by rewrite set_stride_axes_pair.
    - done.
    - destruct (in_int64 a); cbn; [| done].
      rewrite set_stride_axes_single by done.
      by destruct (bool_decide (1 ∈ axis)).
    - destruct (in_int64 a), (in_int64 b); cbn; try done.
      by rewrite set_stride_axes_pair.
    - by destruct (in_int64 a && (in_int64 b && (in_int64 c && forallb in_int64 l))).
    - by rewrite !Z.mul_1_r, !wrap64_id. }
  unfold module_error, convert_module, interrupted_module. cbn [dilation stride].
  destruct dil as [d |].
  - destruct (unit_dilation d) eqn:Hd.
    + rewrite (dilation_step_unit _ _ _ _ d) by done. cbn [stride].
      specialize (Hstride (Some (ATuple [if bool_decide (0 ∈ axis) then x else 1;
                                         if bool_decide (1 ∈ axis) then y else 1]))).
      by destruct (str ≫= stride_error (bool_decide (1 ∈ axis))) as [e |].
    + by rewrite (dilation_step_not_unit _ _ _ d).
  - rewrite dilation_step_none by done. specialize (Hstride None).
    by destruct (str ≫= stride_error (bool_decide (1 ∈ axis))) as [e |].
Qed.

Lemma same_attributes_converted sel2 sel3 d2 d3 m :
  same_attributes m (converted_module sel2 sel3 d2 d3 m).
Proof.
  destruct m as [dil str]. split; cbn.
  - destruct dil; split; intros [? ?]; by eauto.
  - destruct str as [[z | [| a [| b [| c l]]]] |]; split; intros [? ?]; by eauto.
Qed.

Lemma same_attributes_refl m : same_attributes m m.
Proof. by split. Qed.

Lemma upstream_stride_step x m model k i :
  wrap64 (wrap64 (x * stride_on i m) * upstream_stride i model k)
  = wrap64 (x * upstream_stride i (m :: model) (S k)).
Proof. by rewrite upstream_stride_S, wrap64_mul_l, Z.mul_assoc. Qed.

(** A run that meets no error: every module is converted, with the
    cumulative stride before it. *)
Lemma convert_modules_run_ok axis model :
  axes01 axis →
  Forall (λ m, module_error (bool_decide (1 ∈ axis)) m = None) model →
  ∀ x y, in_int64 x = true → in_int64 y = true →
  convert_modules axis [x; y] model
  = (imap (λ k, converted_module (bool_decide (0 ∈ axis)) (bool_decide (1 ∈ axis))
                  (wrap64 (x * upstream_stride 0 model k))
                  (wrap64 (y * upstream_stride 1 model k)))
          model,
     Ok ()).
Proof.
  intros Hax. induction 1 as [| m model Hm _ IH]; intros x y Hx Hy; [done |].
  cbn [convert_modules imap].
  pose proof (convert_module_run axis x y m Hax Hx Hy) as Hrun.
  rewrite Hm in Hrun. rewrite Hrun, IH by apply wrap64_in_int64.
  rewrite !upstream_stride_0, !Z.mul_1_r, (wrap64_id x), (wrap64_id y) by done.
  f_equal. f_equal. apply imap_ext. intros k m' _. cbn.
  by rewrite !upstream_stride_step.
Qed.

(** A run that meets an error at module [k]: the modules before [k] are
    converted, module [k] is left as the interrupted step leaves it, the
    modules after [k] are as they were. *)
Lemma convert_modules_run_raise axis model :
  axes01 axis →
  ∀ x y e, in_int64 x = true → in_int64 y = true →
  head (omap (module_error (bool_decide (1 ∈ axis))) model) = Some e →
  ∃ k m,
    model !! k = Some m ∧
    module_error (bool_decide (1 ∈ axis)) m = Some e ∧
    Forall (λ m, module_error (bool_decide (1 ∈ axis)) m = None) (take k model) ∧
    convert_modules axis [x; y] model
    = (imap (λ j, converted_module (bool_decide (0 ∈ axis)) (bool_decide (1 ∈ axis))
                    (wrap64 (x * upstream_stride 0 model j))
                    (wrap64 (y * upstream_stride 1 model j)))
            (take k model)
       ++ interrupted_module (bool_decide (0 ∈ axis)) (bool_decide (1 ∈ axis))
            (wrap64 (x * upstream_stride 0 model k))
            (wrap64 (y * upstream_stride 1 model k)) m
       :: drop (S k) model,
       Raise e).
Proof.
  intros Hax. induction model as [| m model IH]; intros x y e Hx Hy; [done |].
  pose proof (convert_module_run axis x y m Hax Hx Hy) as Hrun.
  cbn [omap list_omap convert_modules].
  destruct (module_error (bool_decide (1 ∈ axis)) m) as [e0 |] eqn:Hm.
  - cbn. intros [= ->]. exists 0%nat, m. rewrite Hrun.
    split_and!; [done .. |]. cbn. rewrite drop_0.
    by rewrite !upstream_stride_0, !Z.mul_1_r, (wrap64_id x), (wrap64_id y).
  - intros Hhead.
    destruct (IH (wrap64 (x * stride_on 0 m)) (wrap64 (y * stride_on 1 m)) e)
      as (k & mk & Hk & Hek & Hbefore & Hrest); [apply wrap64_in_int64 .. | done |].
    exists (S k), mk. rewrite Hrun, Hrest.
    split_and!; [done | done | by constructor |].
    cbn [take imap drop app]. rewrite !upstream_stride_step.
    rewrite !upstream_stride_0, !Z.mul_1_r, (wrap64_id x), (wrap64_id y) by done.
    f_equal. f_equal. f_equal. apply imap_ext. intros j m' _. cbn.
    by rewrite !upstream_stride_step.
Qed.

Lemma reduced_selected_2 (axis : attr) :
  bool_decide (0 ∈ (λ ax, ax - 2) <$> elements axis) = selected 2 axis.
Proof. exact (reduced_selected 2 axis). Qed.

Lemma reduced_selected_3 (axis : attr) :
  bool_decide (1 ∈ (λ ax, ax - 2) <$> elements axis) = selected 3 axis.
Proof. exact (reduced_selected 3 axis). Qed.

Lemma head_omap_None {A B} (f : A → option B) (l : list A) :
  head (omap f l) = None → Forall (λ a, f a = None) l.
Proof.
  induction l as [| a l IH]; [constructor |].
  cbn. destruct (f a) eqn:Ha; [done |]. intros H. constructor; auto.
Qed.

Lemma take_imap {A B} (f : nat → A → B) (l : list A) (k : nat) :
  take k (imap f l) = imap f (take k l).
Proof.
  revert f k. induction l as [| a l IH]; intros f [| k]; try done.
  cbn. f_equal. apply IH.
Qed.

(** The closed form of every run with a valid [axis]. *)
Lemma to_dense_prediction_model_run model axis :
  valid_axis axis →
  match first_error axis model with
  | None => to_dense_prediction_model model axis = (converted_model axis model, Ok ())
  | Some e =>
      ∃ k m,
        model !! k = Some m ∧
        module_error (selected 3 axis) m = Some e ∧
        Forall (λ m, module_error (selected 3 axis) m = None) (take k model) ∧
        to_dense_prediction_model model axis
        = (take k (converted_model axis model)
           ++ interrupted_module (selected 2 axis) (selected 3 axis)
                (wrap64 (upstream_stride 0 model k))
                (wrap64 (upstream_stride 1 model k)) m
           :: drop (S k) model,
           Raise e)
  end.
Proof.
  intros Hvalid. rewrite to_dense_prediction_model_valid by done.
  pose proof (axes01_reduce _ Hvalid) as Hax.
  unfold first_error, converted_model. rewrite <- reduced_selected_2, <- reduced_selected_3.
  destruct (head (omap _ model)) as [e |] eqn:Hhead.
  - destruct (convert_modules_run_raise _ model Hax 1 1 e) as (k & m & Hk & He & Hbefore & ->);
      [done .. |].
    exists k, m. split_and!; [done .. |].
    rewrite take_imap. f_equal. f_equal; [| f_equal].
    + apply imap_ext. intros j m' _. by rewrite !Z.mul_1_l.
    + by rewrite !Z.mul_1_l.
  - rewrite (convert_modules_run_ok _ model Hax (head_omap_None _ _ Hhead) 1 1) by done.
    f_equal. apply imap_ext. intros j m' _. cbn. by rewrite !Z.mul_1_l.
Qed.

Lemma stride_error_convertible s :
  stride_error true s = None ↔
  (∃ z, s = AInt z ∧ in_int64 z = true) ∨
  (∃ a b, s = ATuple [a; b] ∧ in_int64 a = true ∧ in_int64 b = true).
Proof.
  unfold stride_error. destruct s as [z | [| a [| b [| c l]]]]; cbn.
  - destruct (in_int64 z) eqn:Hz; cbn.
    + split; [intros _; left; eauto | done].
    + split; [done |]. intros [(z' & [= <-] & Hz') | (a & b & [=] & _)]. congruence.
  - split; [done |]. by intros [(z' & [=] & _) | (a & b & [=] & _)].
  - destruct (in_int64 a); cbn; (split; [done |]);
      by intros [(z' & [=] & _) | (a' & b' & [=] & _)].
  - destruct (in_int64 a) eqn:Ha, (in_int64 b) eqn:Hb; cbn;
      (split; [try done; intros _; right; by eauto |]); try done;
      intros [(z' & [=] & _) | (a' & b' & [= <- <-] & Ha' & Hb')]; congruence.
  - destruct (in_int64 a && (in_int64 b && (in_int64 c && forallb in_int64 l)));
      cbn; (split; [done |]); by intros [(z' & [=] & _) | (a' & b' & [=] & _)].
Qed.

Lemma convertible_module_error m : convertible m ↔ module_error true m = None.
Proof.
  destruct m as [dil str]. unfold convertible, module_error. cbn [dilation stride].
  assert ((∀ s, str = Some s →
             (∃ z, s = AInt z ∧ in_int64 z = true) ∨
             (∃ a b, s = ATuple [a; b] ∧ in_int64 a = true ∧ in_int64 b = true))
          ↔ str ≫= stride_error true = None) as ->.
  { destruct str as [s |]; cbn.
    - rewrite stride_error_convertible. split; [| intros H ? [= <-]]; eauto.
    - split; [done |]. by intros _ ? [=]. }
  destruct dil as [d |].
  - destruct (unit_dilation d) eqn:Hd.
    + split; [by intros [_ ?] |]. intros H. split; [| done]. by intros ? [= <-].
    + split; [| done]. intros [H _]. specialize (H d eq_refl). congruence.
  - split; [by intros [_ ?] |]. intros H. split; [| done]. by intros ? [=].
Qed.

Lemma head_omap_None_2 {A B} (f : A → option B) (l : list A) :
  Forall (λ a, f a = None) l → head (omap f l) = None.
Proof. induction 1 as [| a l Ha _ IH]; [done |]. cbn. by rewrite Ha. Qed.

Lemma stride_eliminated_converted d2 d3 m :
  module_error true m = None → stride_eliminated m (converted_module true true d2 d3 m).
Proof.
  intros [_ Hstr]%convertible_module_error. unfold stride_eliminated.
  destruct m as [dil [s |]]; cbn in *; [| done].
  by destruct (Hstr s eq_refl) as [(z & -> & _) | (a & b & -> & _)].
Qed.

Lemma Forall2_imap_r {A B} (R : A → B → Prop) (f : nat → A → B) (l : list A) :
  Forall (λ a, ∀ k, R a (f k a)) l → Forall2 R l (imap f l).
Proof.
  revert f. induction l as [| a l IH]; intros f Hl; [constructor |].
  apply Forall_cons in Hl as [Ha Hl]. cbn. constructor; [apply Ha |].
  apply IH. eapply Forall_impl; [exact Hl |]. intros a' H k. apply H.
Qed.

Lemma stride_eliminated_unit model model' :
  Forall2 stride_eliminated model model' →
  Forall (λ m, ∀ s, stride m = Some s → s = ATuple [1; 1]) model'.
Proof.
  induction 1 as [| m m' l l' Hm _ IH]; constructor; [| done].
  unfold stride_eliminated in Hm. intros s Hs. rewrite Hs in Hm.
  destruct (stride m); cbn in Hm; congruence.
Qed.

(** C2.  A conversion for the axes 2 and 3 returns on every graph whose
    modules it accepts, and on no other; when it returns, every module
    that had a stride has the stride (1, 1), a module that had none still
    has none, and so every stride of the graph is (1, 1). *)
Theorem stride_elimination model axis :
  valid_axis axis → 2 ∈ elements axis → 3 ∈ elements axis →
  (Forall convertible model →
   ∃ model', to_dense_prediction_model model axis = (model', Ok ())) ∧
  (∀ model', to_dense_prediction_model model axis = (model', Ok ()) →
     Forall convertible model ∧
     Forall2 stride_eliminated model model' ∧
     Forall (λ m, ∀ s, stride m = Some s → s = ATuple [1; 1]) model').
Proof.
  intros Hvalid H2 H3.
  pose proof (to_dense_prediction_model_run model axis Hvalid) as Hrun.
  assert (selected 2 axis = true) as Hs2 by (by apply bool_decide_eq_true_2).
  assert (selected 3 axis = true) as Hs3 by (by apply bool_decide_eq_true_2).
  unfold first_error, converted_model in Hrun. rewrite Hs2, Hs3 in Hrun. split.
  - intros Hall. rewrite head_omap_None_2 in Hrun; [by eexists |].
    eapply Forall_impl; [exact Hall |]. intros m. apply convertible_module_error.
  - intros model' Hconv.
    destruct (head (omap (module_error true) model)) as [e |] eqn:Hhead.
    { destruct Hrun as (k & m & _ & _ & _ & Hrun). rewrite Hrun in Hconv. discriminate. }
    rewrite Hrun in Hconv. injection Hconv as <-.
    apply head_omap_None in Hhead.
    assert (Forall2 stride_eliminated model
              (imap (λ k, converted_module true true
                            (wrap64 (upstream_stride 0 model k))
                            (wrap64 (upstream_stride 1 model k))) model)) as Helim.
    { apply Forall2_imap_r. eapply Forall_impl; [exact Hhead |].
      intros m Hm k. by apply stride_eliminated_converted. }
    split_and!; [| done | by apply (stride_eliminated_unit model)].
    eapply Forall_impl; [exact Hhead |]. intros m. apply convertible_module_error.
Qed.

Lemma stride_elimination_witness :
  ∃ model',
    to_dense_prediction_model network_example (ATuple [2; 3]) = (model', Ok ()) ∧
    Forall2 stride_eliminated network_example model' ∧
    Forall (λ m, ∀ s, stride m = Some s → s = ATuple [1; 1]) model'.
Proof.
  destruct (stride_elimination network_example (ATuple [2; 3])) as [Hok Hall].
  - vm_compute. reflexivity.
  - apply list_elem_of_In. simpl. auto.
  - apply list_elem_of_In. simpl. auto.
  - destruct Hok as [model' Hconv].
    + apply Forall_forall. intros m Hm. apply convertible_module_error.
      apply list_elem_of_In in Hm. simpl in Hm.
      destruct Hm as [<- | [<- | [<- | [<- | [<- | []]]]]]; reflexivity.
    + exists model'. split; [exact Hconv |]. by apply Hall in Hconv as (_ & ? & ?).
Defined.

(** X1.  What a conversion raises is decided module by module: with an
    [axis] outside {2, 3} it is the assertion on the axis; otherwise it is
    the error of the first module that has one, and nothing when no module
    has one. *)
Theorem to_dense_prediction_model_outcome model axis :
  (to_dense_prediction_model model axis).2
  = if decide (valid_axis axis)
    then from_option Raise (Ok ()) (first_error axis model)
    else Raise (AssertionError axis_msg).
Proof.
  destruct (decide (valid_axis axis)) as [Hvalid | Hinvalid].
  - pose proof (to_dense_prediction_model_run model axis Hvalid) as Hrun.
    destruct (first_error axis model) as [e |].
    + by destruct Hrun as (k & m & _ & _ & _ & ->).
    + by rewrite Hrun.
  - unfold to_dense_prediction_model, valid_axis in *.
    by destruct (forallb _ (elements axis)).
Qed.

(** X2.  A conversion that does not raise leaves the modules in closed
    form: each dilation is the cumulative stride (modulo 2^64) of the
    modules before it on the selected axes and 1 on the others, each stride
    is 1 on the selected axes and unchanged on the others, and no attribute
    is added to a module that has none. *)
Theorem to_dense_prediction_model_closed_form model axis model' :
  to_dense_prediction_model model axis = (model', Ok ()) →
  model' = converted_model axis model.
Proof.
  intros Hconv.
  pose proof (to_dense_prediction_model_ok _ _ _ Hconv) as Hvalid.
  pose proof (to_dense_prediction_model_run model axis Hvalid) as Hrun.
  destruct (first_error axis model) as [e |].
  - destruct Hrun as (k & m & _ & _ & _ & Hrun). rewrite Hrun in Hconv. discriminate.
  - rewrite Hrun in Hconv. by injection Hconv as <-.
Qed.

Lemma to_dense_prediction_model_closed_form_witness :
  [NnModule None None;
   NnModule (Some (ATuple [1; 1])) (Some (ATuple [2; 1]));
   NnModule (Some (ATuple [1; 3])) (Some (ATuple [3; 1]));
   NnModule (Some (ATuple [1; 9])) (Some (ATuple [1; 1]));
   NnModule (Some (ATuple [1; 45])) (Some (ATuple [1; 1]))]
  = converted_model (AInt 3) network_example.
Proof.
  apply (to_dense_prediction_model_closed_form network_example (AInt 3)).
  vm_compute. reflexivity.
Defined.

(** X3.  A conversion that raises rolls nothing back: with a valid [axis]
    it stops at the first module [k] that has an error; the modules before
    [k] are converted as in a run that does not raise, module [k] is as it
    was if the assertion on its dilation failed (and otherwise has its
    dilation written and an int stride made a pair), and the modules after
    [k] are untouched.  With an [axis] outside {2, 3} no module is
    touched. *)
Theorem to_dense_prediction_model_interrupted model axis model' e :
  to_dense_prediction_model model axis = (model', Raise e) →
  (¬ valid_axis axis ∧ e = AssertionError axis_msg ∧ model' = model) ∨
  (valid_axis axis ∧
   ∃ k m,
     model !! k = Some m ∧
     module_error (selected 3 axis) m = Some e ∧
     Forall (λ m, module_error (selected 3 axis) m = None) (take k model) ∧
     model'
     = take k (converted_model axis model)
       ++ interrupted_module (selected 2 axis) (selected 3 axis)
            (wrap64 (upstream_stride 0 model k))
            (wrap64 (upstream_stride 1 model k)) m
       :: drop (S k) model).
Proof.
  intros Hconv. destruct (decide (valid_axis axis)) as [Hvalid | Hinvalid].
  - right. split; [done |].
    pose proof (to_dense_prediction_model_run model axis Hvalid) as Hrun.
    destruct (first_error axis model) as [e' |].
    + destruct Hrun as (k & m & Hk & He & Hbefore & Hrun).
      rewrite Hrun in Hconv. injection Hconv as <- <-. by exists k, m.
    + rewrite Hrun in Hconv. discriminate.
  - left. split; [done |]. revert Hconv.
    unfold to_dense_prediction_model, valid_axis in *.
    destruct (forallb _ (elements axis)); [done |]. by intros [= <- <-].
Qed.

Lemma to_dense_prediction_model_interrupted_witness :
  to_dense_prediction_model network_example_1d (ATuple [2; 3])
  = ([NnModule None None;
      NnModule (Some (ATuple [1; 1])) (Some (ATuple [1; 1]));
      NnModule (Some (ATuple [1])) (Some (ATuple [2]));
      NnModule (Some (ATuple [1; 1])) (Some (ATuple [1; 5]))],
     Raise (AssertionError dilation_msg)) ∧
  ∃ k m,
    network_example_1d !! k = Some m ∧
    module_error (selected 3 (ATuple [2; 3])) m = Some (AssertionError dilation_msg) ∧
    drop (S k) network_example_1d
    = [NnModule (Some (ATuple [1; 1])) (Some (ATuple [1; 5]))].
Proof.
  assert (to_dense_prediction_model network_example_1d (ATuple [2; 3])
          = ([NnModule None None;
              NnModule (Some (ATuple [1; 1])) (Some (ATuple [1; 1]));
              NnModule (Some (ATuple [1])) (Some (ATuple [2]));
              NnModule (Some (ATuple [1; 1])) (Some (ATuple [1; 5]))],
             Raise (AssertionError dilation_msg))) as Hconv
    by (vm_compute; reflexivity).
  split; [exact Hconv |].
  destruct (to_dense_prediction_model_interrupted _ _ _ _ Hconv)
    as [(Hinvalid & _) | (_ & k & m & Hk & He & Hbefore & Hmodel)].
  - destruct Hinvalid. reflexivity.
  - exists k, m. split_and!; [done | done |].
    destruct k as [| [| [| k]]].
    + discriminate He || (injection Hk as <-; discriminate He).
    + injection Hk as <-. discriminate He.
    + reflexivity.
    + apply Forall_cons in Hbefore as [_ Hbefore].
      apply Forall_cons in Hbefore as [_ Hbefore].
      apply Forall_cons in Hbefore as [Hbad _]. discriminate Hbad.
Defined.

Lemma same_attributes_interrupted sel2 sel3 d2 d3 m :
  same_attributes m (interrupted_module sel2 sel3 d2 d3 m).
Proof.
  destruct m as [dil str]. unfold interrupted_module. cbn.
  assert (is_Some str ↔ is_Some (normalised_stride str)) as Hstr
    by (destruct str as [[z | l] |]; split; intros [? ?]; by eauto).
  destruct dil as [d |]; [destruct (unit_dilation d) |]; split; cbn; done.
Qed.

Lemma Forall2_same_attributes_imap (f : nat → nn_module → nn_module) model :
  (∀ k m, same_attributes m (f k m)) → Forall2 same_attributes model (imap f model).
Proof.
  revert f. induction model as [| m model IH]; intros f Hf; [constructor |].
  cbn. constructor; [apply Hf |]. apply IH. intros k m'. apply Hf.
Qed.

(** X4.  Whatever the outcome, a conversion adds no attribute to a module
    and removes none: a module has a dilation (a stride) afterwards exactly
    when it had one before, and the modules are as many as before. *)
Theorem to_dense_prediction_model_same_attributes model axis :
  Forall2 same_attributes model (to_dense_prediction_model model axis).1.
Proof.
  destruct (decide (valid_axis axis)) as [Hvalid | Hinvalid].
  - pose proof (to_dense_prediction_model_run model axis Hvalid) as Hrun.
    destruct (first_error axis model) as [e |].
    + destruct Hrun as (k & m & Hk & _ & _ & ->). cbn.
      rewrite <- (take_drop_middle model k m Hk) at 1.
      apply Forall2_app; [| constructor].
      * unfold converted_model. rewrite take_imap.
        apply Forall2_same_attributes_imap. intros. apply same_attributes_converted.
      * apply same_attributes_interrupted.
      * apply Forall2_same_length_lookup_2; [done |]. by intros i x y -> [= ->].
    + rewrite Hrun. cbn. apply Forall2_same_attributes_imap.
      intros. apply same_attributes_converted.
  - unfold to_dense_prediction_model, valid_axis in *.
    destruct (forallb _ (elements axis)); [done |]. cbn.
    apply Forall2_same_length_lookup_2; [done |]. by intros i x y -> [= ->].
Qed.

Lemma selected_ext a (axis1 axis2 : attr) :
  (∀ ax, ax ∈ elements axis1 ↔ ax ∈ elements axis2) → selected a axis1 = selected a axis2.
Proof. intros H. apply bool_decide_ext, H. Qed.

Lemma valid_axis_ext (axis1 axis2 : attr) :
  (∀ ax, ax ∈ elements axis1 ↔ ax ∈ elements axis2) → valid_axis axis1 → valid_axis axis2.
Proof.
  unfold valid_axis. rewrite !forallb_forall. intros H Hvalid ax Hax.
  apply Hvalid, list_elem_of_In, H, list_elem_of_In, Hax.
Qed.

(** X5.  Only the set of the axes matters: an int and the tuple that holds
    it, the axes in another order, or an axis given twice, give the same
    conversion. *)
Theorem to_dense_prediction_model_axis_set model axis1 axis2 :
  (∀ ax, ax ∈ elements axis1 ↔ ax ∈ elements axis2) →
  to_dense_prediction_model model axis1 = to_dense_prediction_model model axis2.
Proof.
  intros Hsame.
  assert (first_error axis1 model = first_error axis2 model) as Herr
    by (unfold first_error; by rewrite (selected_ext 3 axis1 axis2)).
  assert (converted_model axis1 model = converted_model axis2 model) as Hconv
    by (unfold converted_model;
        by rewrite (selected_ext 2 axis1 axis2), (selected_ext 3 axis1 axis2)).
  destruct (decide (valid_axis axis1)) as [Hvalid1 | Hinvalid1].
  - pose proof (valid_axis_ext _ _ Hsame Hvalid1) as Hvalid2.
    pose proof (to_dense_prediction_model_run model axis1 Hvalid1) as Hrun1.
    pose proof (to_dense_prediction_model_run model axis2 Hvalid2) as Hrun2.
    rewrite <- Herr in Hrun2. destruct (first_error axis1 model) as [e |].
    + destruct Hrun1 as (k1 & m1 & Hk1 & He1 & Hbefore1 & ->).
      destruct Hrun2 as (k2 & m2 & Hk2 & He2 & Hbefore2 & ->).
      rewrite <- (selected_ext 2 axis1 axis2), <- (selected_ext 3 axis1 axis2) in * by done.
      assert (k1 = k2) as <-.
      { destruct (Nat.lt_trichotomy k1 k2) as [Hlt | [Heq | Hgt]]; [| done |].
        - rewrite Forall_lookup in Hbefore2.
          specialize (Hbefore2 k1 m1). rewrite lookup_take_lt in Hbefore2 by done.
          rewrite (Hbefore2 Hk1) in He1. discriminate.
        - rewrite Forall_lookup in Hbefore1.
          specialize (Hbefore1 k2 m2). rewrite lookup_take_lt in Hbefore1 by done.
          rewrite (Hbefore1 Hk2) in He2. discriminate. }
      assert (m1 = m2) as <- by congruence. by rewrite Hconv.
    + by rewrite Hrun1, Hrun2, Hconv.
  - assert (¬ valid_axis axis2) as Hinvalid2.
    { intros Hvalid2. apply Hinvalid1.
      eapply valid_axis_ext; [| exact Hvalid2]. intros ax. symmetry. apply Hsame. }
    unfold to_dense_prediction_model, valid_axis in *.
    by destruct (forallb _ (elements axis1)), (forallb _ (elements axis2)).
Qed.

Lemma to_dense_prediction_model_axis_set_witness :
  to_dense_prediction_model network_example (ATuple [2; 3])
  = to_dense_prediction_model network_example (ATuple [3; 2; 3]).
Proof.
  apply (to_dense_prediction_model_axis_set network_example (ATuple [2; 3]) (ATuple [3; 2; 3])).
  intros ax. simpl. rewrite !elem_of_cons, !elem_of_nil. tauto.
Defined.

(** ** Further properties of [_pad_shift_array] and [aggregate_probas] *)

Local Open Scope nat_scope.

Section AggregationFurther.
Context {T : Type} (zero : T) (add : T → T → T) (lsm : list T → nat → T).



Lemma filter_none {A} (P : A → Prop) `{∀ a, Decision (P a)} (l : list A) :
  Forall (λ a, ¬ P a) l → filter P l = [].
Proof.
  induction 1 as [| a l Ha _ IH]; [done |]. by rewrite filter_cons_False.
Qed.

(** The overlap sum in C order, with the shape of the output. *)
Lemma overlap_sum_c_order (logits : np_array T) n_rows n_classes n_windows stride :
  (∀ a, add a zero = a) →
  shape (contents logits) = [n_rows; n_classes; n_windows] →
  fnc logits = false →
  1 ≤ n_rows → 1 ≤ n_classes → (0 ≤ stride)%Z →
  view_fits logits n_rows n_classes n_windows stride →
  ∃ log_probas out,
    log_softmax lsm logits 1 = Ok log_probas ∧
    aggregate_probas zero add lsm logits stride = Ok out ∧
    shape out = [n_windows + pad_of n_rows stride; n_classes] ∧
    ∀ t c, t < n_windows + pad_of n_rows stride → c < n_classes →
      item out [t; c]
      = Some (sum_list zero add
                ((λ i, item (contents log_probas)
                         [i; c; Z.to_nat (Z.of_nat t - Z.of_nat i * stride)])
                 <$> covering n_rows n_windows stride t)).
Proof.
  intros Hzero Hshape Hfnc Hrows Hclasses Hstride Hfits.
  destruct (aggregate_probas_ok zero add lsm logits _ _ _ stride Hshape)
    as (log_probas & v & Hls & Hshape' & Hfnc' & Hv & Hdims & ->); [lia | nia | done |].
  rewrite Hfnc in Hfnc'.
  exists log_probas. eexists. split_and!; [done | done | |].
  { by rewrite (sum_axis0_shape _ _ _ _ _ _ Hdims). }
  intros t c Ht Hc.
  rewrite (sum_axis0_item _ _ _ _ _ _ _ _
             (λ i, if decide (covers n_windows stride t i)
                   then item (contents log_probas)
                          [i; c; Z.to_nat (Z.of_nat t - Z.of_nat i * stride)]
                   else zero) Hdims).
  - unfold sum_list, covering. f_equal.
    by rewrite <- (sum_skips_zeros zero add (covers n_windows stride t)).
  - intros i Hi. unfold covers.
    destruct (Z.lt_ge_cases (Z.of_nat t) (Z.of_nat i * stride)) as [Hbefore | Hafter].
    + rewrite (view_item_before_c_order zero log_probas _ _ _ stride v i c t Hshape')
        by (done || lia).
      by rewrite decide_False by lia.
    + rewrite (view_item_shifted zero log_probas _ _ _ stride v i c t Hshape' Hv)
        by (done || nia).
      unfold padded_item.
      destruct (decide (Z.to_nat (Z.of_nat t - Z.of_nat i * stride) < n_windows)).
      * by rewrite decide_True by lia.
      * by rewrite decide_False by lia.
Qed.

(** X11.  With the stride equal to the number of windows the sequences do
    not overlap, and aggregating logits in C order concatenates their
    log-probabilities: dense position [i * n_windows + j] is window [j] of
    sequence [i]. *)
Theorem aggregate_probas_no_overlap (logits : np_array T) n_rows n_classes n_windows :
  (∀ a, add a zero = a) → (∀ a, add zero a = a) →
  shape (contents logits) = [n_rows; n_classes; n_windows] →
  fnc logits = false →
  1 ≤ n_rows → 1 ≤ n_classes →
  ∃ log_probas out,
    log_softmax lsm logits 1 = Ok log_probas ∧
    aggregate_probas zero add lsm logits (Z.of_nat n_windows) = Ok out ∧
    shape out = [n_rows * n_windows; n_classes] ∧
    ∀ i j c, i < n_rows → j < n_windows → c < n_classes →
      item out [i * n_windows + j; c] = Some (item (contents log_probas) [i; c; j]).
Proof.
  intros Hright Hleft Hshape Hfnc Hrows Hclasses.
  destruct (overlap_sum_c_order logits _ _ _ (Z.of_nat n_windows) Hright Hshape Hfnc)
    as (log_probas & out & Hls & Hout & Hshape_out & Hitem);
    [lia | lia | lia | apply view_fits_bounded; lia |].
  assert (pad_of n_rows (Z.of_nat n_windows) = (n_rows - 1) * n_windows) as Hpad
    by (unfold pad_of; nia).
  exists log_probas, out. split_and!; [done | done | |].
  - rewrite Hshape_out, Hpad. f_equal. nia.
  - intros i j c Hi Hj Hc. rewrite Hitem by (rewrite ?Hpad; nia || done).
    assert (covering n_rows n_windows (Z.of_nat n_windows) (i * n_windows + j) = [i]) as ->.
    { unfold covering.
      replace n_rows with (i + (1 + (n_rows - i - 1))) by lia.
      rewrite !seq_app, !filter_app. cbn [seq].
      rewrite (filter_none _ (seq 0 i)), (filter_none _ (seq _ (n_rows - i - 1))).
      - rewrite filter_cons_True; [done |]. unfold covers. nia.
      - apply Forall_forall. intros i' Hi'%elem_of_seq. unfold covers. nia.
      - apply Forall_forall. intros i' Hi'%elem_of_seq. unfold covers. nia. }
    cbn. rewrite Hleft.
    replace (Z.to_nat (Z.of_nat (i * n_windows + j) - Z.of_nat i * Z.of_nat n_windows))
      with j by (rewrite Nat2Z.inj_add, Nat2Z.inj_mul; lia).
    done.
Qed.


End AggregationFurther.


Lemma aggregate_probas_no_overlap_witness :
  ∃ log_probas out,
    log_softmax lsm_example (logits_example [3; 2; 2] false) 1 = Ok log_probas ∧
    aggregate_probas 0%Z Z.add lsm_example (logits_example [3; 2; 2] false) (Z.of_nat 2)
    = Ok out ∧
    shape out = [3 * 2; 2] ∧
    ∀ i j c, i < 3 → j < 2 → c < 2 →
      item out [i * 2 + j; c] = Some (item (contents log_probas) [i; c; j]).
Proof.
  apply (aggregate_probas_no_overlap 0%Z Z.add lsm_example
           (logits_example [3; 2; 2] false) 3 2 2);
    [intros a; lia | intros a; lia | reflexivity | reflexivity | lia | lia].
Defined.



(** ** Further properties of [TimeDistributed] *)

Section TimeDistributedFurther.
Context {T Out : Type}.

Lemma mapM_result_raise {A B} (g : A → result B) (l1 l2 : list A) a e :
  (∀ b, b ∈ l1 → is_Some (match g b with Ok v => Some v | Raise _ => None end)) →
  g a = Raise e →
  mapM g (l1 ++ a :: l2) = Raise e.
Proof.
  intros Hok Ha. induction l1 as [| b l1 IH]; cbn.
  - by rewrite Ha.
  - destruct (Hok b) as [v Hv]; [by left |].
    destruct (g b) as [v' | e']; [| done]. cbn.
    rewrite IH; [done |]. intros b' Hb'. apply Hok. by right.
Qed.

(** The tensor that the classifier receives, when all the windows give
    features of one shape. *)
Lemma forward_run (self : time_distributed T Out) (x : ndarray T)
    batch seq_len window_shape (f : nat → ndarray T) n feat_shape :
  shape x = batch :: seq_len :: window_shape →
  1 ≤ seq_len →
  (∀ i, i < seq_len →
     feat_extractor self (select1 x i) = Ok (f i) ∧ shape (f i) = n :: feat_shape) →
  ∃ feats,
    forward self x = clf self feats ∧
    shape feats = [n; seq_len * foldr Nat.mul 1 feat_shape].
Proof.
  intros Hshape Hlen Hf. unfold forward. rewrite Hshape. cbn [lookup list_lookup].
  rewrite (mapM_result_ok _ f) by (intros i Hi%elem_of_seq; apply Hf; lia).
  cbn [mbind result_bind].
  destruct seq_len as [| seq_len]; [lia |].
  cbn [seq fmap list_fmap]. unfold torch_stack1.
  fold (list_fmap _ _ f (seq 1 seq_len)).
  rewrite decide_False by (destruct (Hf 0) as [_ ->]; [lia | done]).
  assert (forallb (λ g, bool_decide (shape g = shape (f 0))) (f 0 :: (f <$> seq 1 seq_len))
          = true) as ->.
  { apply forallb_forall. intros g Hg. apply bool_decide_eq_true.
    change (f 0 :: (f <$> seq 1 seq_len)) with (f <$> seq 0 (S seq_len)) in Hg.
    apply list_elem_of_In, list_elem_of_fmap in Hg as (i & -> & Hi%elem_of_seq).
    destruct (Hf i) as [_ ->]; [lia |]. by destruct (Hf 0) as [_ ->]; [lia |]. }
  cbn [negb]. destruct (Hf 0) as [_ Hshape0]; [lia |].
  eexists. split; [done |]. rewrite Hshape0.
  cbn. rewrite !take_0, !drop_0. cbn. by rewrite length_fmap, length_seq.
Qed.

(** A sequence of no window makes [forward] raise, whatever the
    feature extractor and the classifier: [torch.stack] has nothing to
    stack. *)
Lemma forward_no_window (self : time_distributed T Out) (x : ndarray T) :
  shape x !! 1 = Some 0 → forward self x = Raise RuntimeError.
Proof. unfold forward. by intros ->. Qed.

(** X13.  When the feature extractor raises on window [i] and on no window
    before it, [forward] raises the same exception: the windows are
    processed in order and the classifier is not called. *)
Theorem forward_extractor_raises (self : time_distributed T Out) (x : ndarray T)
    seq_len i e :
  shape x !! 1 = Some seq_len →
  i < seq_len →
  (∀ j, j < i → ∃ f, feat_extractor self (select1 x j) = Ok f) →
  feat_extractor self (select1 x i) = Raise e →
  forward self x = Raise e.
Proof.
  intros Hlen Hi Hbefore Hraise. unfold forward. rewrite Hlen.
  replace seq_len with (i + S (seq_len - i - 1)) by lia.
  rewrite seq_app. cbn [seq].
  rewrite (mapM_result_raise _ _ _ _ e); [done | | done].
  intros j Hj%elem_of_seq. destruct (Hbefore j) as [f ->]; [lia |]. by eexists.
Qed.

(** X14.  When the feature extractor gives features of another shape on
    some window than on window 0, [forward] raises [RuntimeError] and the
    classifier is not called. *)
Theorem forward_uneven_features (self : time_distributed T Out) (x : ndarray T)
    seq_len (f : nat → ndarray T) i :
  shape x !! 1 = Some seq_len →
  (∀ j, j < seq_len → feat_extractor self (select1 x j) = Ok (f j)) →
  shape (f 0) ≠ [] →
  i < seq_len → shape (f i) ≠ shape (f 0) →
  forward self x = Raise RuntimeError.
Proof.
  intros Hlen Hf Hrank Hi Hshape. unfold forward. rewrite Hlen.
  rewrite (mapM_result_ok _ f) by (intros j Hj%elem_of_seq; apply Hf; lia).
  cbn [mbind result_bind].
  destruct seq_len as [| seq_len]; [lia |].
  cbn [seq fmap list_fmap]. unfold torch_stack1.
  fold (list_fmap _ _ f (seq 1 seq_len)).
  rewrite decide_False by done.
  assert (forallb (λ g, bool_decide (shape g = shape (f 0))) (f 0 :: (f <$> seq 1 seq_len))
          = false) as ->; [| done].
  apply not_true_is_false. rewrite forallb_forall. intros Hall.
  apply Hshape. eapply bool_decide_eq_true, Hall, list_elem_of_In.
  change (f 0 :: (f <$> seq 1 seq_len)) with (f <$> seq 0 (S seq_len)).
  apply list_elem_of_fmap. exists i. split; [done |]. apply elem_of_seq. lia.
Qed.

End TimeDistributedFurther.

Section DefaultClassifierProperties.
Context {T : Type}.

(** X15.  With the default classifier, [forward] returns one row of
    [n_classes] scores per batch element when the number of windows times
    the number of features per window is [feat_size * n_windows], and
    raises [RuntimeError] otherwise; only the product is checked. *)
Theorem forward_default_classifier
    (feat_extractor : ndarray T → result (ndarray T))
    (feat_size n_windows n_classes : Z) (dropout : QArith_base.Q)
    (drop_item : list nat → T → T) (affine : list T → nat → T)
    (x : ndarray T) batch seq_len window_shape (f : nat → ndarray T) n feat_shape :
  QArith_base.Qle_bool (QArith_base.inject_Z 0) dropout = true →
  QArith_base.Qle_bool dropout (QArith_base.inject_Z 1) = true →
  (0 ≤ feat_size * n_windows)%Z → (0 ≤ n_classes)%Z →
  shape x = batch :: seq_len :: window_shape →
  1 ≤ seq_len →
  (∀ i, i < seq_len →
     feat_extractor (select1 x i) = Ok (f i) ∧ shape (f i) = n :: feat_shape) →
  ∃ self,
    TimeDistributed_init feat_extractor (Some feat_size) (Some n_windows) (Some n_classes)
      dropout None drop_item affine = inr self ∧
    if decide (Z.of_nat (seq_len * foldr Nat.mul 1 feat_shape)%nat = feat_size * n_windows)%Z
    then ∃ out, forward self x = Ok out ∧ shape out = [n; Z.to_nat n_classes]
    else forward self x = Raise RuntimeError.
Proof.
  intros Hp0 Hp1 Hin Hout Hshape Hlen Hf.
  unfold TimeDistributed_init. rewrite Hp0, Hp1. cbn [andb negb].
  destruct (Z.ltb_spec (feat_size * n_windows) 0); [lia |].
  destruct (Z.ltb_spec n_classes 0); [lia |]. cbn [orb].
  eexists. split; [done |].
  edestruct (forward_run
               (TimeDistributed feat_extractor
                  (sequential_forward (NnDropout drop_item)
                     (NnLinear (Z.to_nat (feat_size * n_windows)) (Z.to_nat n_classes) affine)))
               x) as (feats & -> & Hfeats); [done .. |].
  cbn [clf]. unfold sequential_forward, linear_forward, dropout_forward.
  cbn [shape in_features out_features]. rewrite Hfeats. cbn [last].
  destruct (decide (Z.of_nat (seq_len * foldr Nat.mul 1 feat_shape)%nat = feat_size * n_windows)%Z)
    as [Heq | Hne].
  - rewrite decide_True by lia. eexists. split; [done |]. done.
  - rewrite decide_False by lia. done.
Qed.

End DefaultClassifierProperties.

Lemma forward_extractor_raises_witness :
  forward {| feat_extractor := failing_extractor_example; clf := λ feats, Ok (shape feats) |}
    windows_example
  = Raise ValueError.
Proof.
  apply (forward_extractor_raises
           {| feat_extractor := failing_extractor_example; clf := λ feats, Ok (shape feats) |}
           windows_example 3 1 ValueError).
  - reflexivity.
  - lia.
  - intros j Hj. replace j with 0 by lia. eexists. reflexivity.
  - reflexivity.
Defined.

Lemma forward_no_window_witness :
  forward time_distributed_example {| shape := [2; 0; 1; 2]; item := λ _, 0%Z |}
  = Raise RuntimeError.
Proof.
  apply (forward_no_window time_distributed_example
           {| shape := [2; 0; 1; 2]; item := λ _, 0%Z |}).
  reflexivity.
Defined.

Lemma forward_uneven_features_witness :
  forward {| feat_extractor := uneven_extractor_example; clf := λ feats, Ok (shape feats) |}
    windows_example
  = Raise RuntimeError.
Proof.
  apply (forward_uneven_features
           {| feat_extractor := uneven_extractor_example; clf := λ feats, Ok (shape feats) |}
           windows_example 3
           (λ j, {| shape := [2; 2 + Z.to_nat (item (select1 windows_example j) [0; 0; 0]%nat)];
                    item := λ idx, item (select1 windows_example j) [idx !!! 0; 0; 0] |})
           1).
  - reflexivity.
  - intros j Hj. reflexivity.
  - discriminate.
  - lia.
  - vm_compute. discriminate.
Defined.

Lemma forward_default_classifier_witness :
  ∃ self,
    TimeDistributed_init (feat_extractor time_distributed_example)
      (Some 3%Z) (Some 2%Z) (Some 5%Z) (QArith_base.Qmake 1 4) None
      (λ _ v, v) (λ v j, foldr Z.add (Z.of_nat j) v) = inr self ∧
    ∃ out, forward self windows_example = Ok out ∧ shape out = [2; 5].
Proof.
  destruct (forward_default_classifier (feat_extractor time_distributed_example)
              3 2 5 (QArith_base.Qmake 1 4) (λ _ v, v) (λ v j, foldr Z.add (Z.of_nat j) v)
              windows_example 2 3 [1; 2]
              (λ i, {| shape := [2; 2];
                       item := λ idx,
                         (item (select1 windows_example i) [idx !!! 0; 0; idx !!! 1]%nat + 1)%Z |})
              2 [2])
    as (self & Hinit & Hforward).
  - reflexivity.
  - reflexivity.
  - lia.
  - lia.
  - reflexivity.
  - lia.
  - intros i Hi. split; reflexivity.
  - exists self. split; [exact Hinit |]. exact Hforward.
Defined.

(** ** The converted network is dense *)

Local Open Scope Z_scope.

Lemma stride_on_converted axis m i :
  converted axis m → Z.of_nat i ∈ axis → (i < 2)%nat → stride_on i m = 1.
Proof.
  intros [_ Hstr] Hi Hlt. unfold stride_on.
  destruct (stride m) as [s |] eqn:Hs; [| done].
  destruct (Hstr s eq_refl) as [(a & -> & _ & H1 & H0) | (a & b & -> & _ & _ & H0 & H1)].
  - destruct i as [| [| i]]; [by apply H0 | by destruct H1 | lia].
  - destruct i as [| [| i]]; [by apply H0 | by apply H1 | lia].
Qed.

(** X6.  After a conversion that does not raise, the strides of the
    modules multiply to 1 on every selected axis, up to any module: the
    network no longer downsamples along the selected axes. *)
Theorem converted_model_is_dense model axis model' a k :
  to_dense_prediction_model model axis = (model', Ok ()) →
  a ∈ elements axis →
  upstream_stride (Z.to_nat (a - 2)) model' k = 1.
Proof.
  intros Hconv Ha.
  pose proof (to_dense_prediction_model_ok _ _ _ Hconv) as Hvalid.
  rewrite to_dense_prediction_model_valid in Hconv by done.
  pose proof (axes01_reduce _ Hvalid) as Hax.
  apply convert_modules_ok in Hconv; [| done].
  apply elem_of_reduced in Ha.
  assert (Z.of_nat (Z.to_nat (a - 2)) ∈ (λ ax, ax - 2) <$> elements axis
          ∧ (Z.to_nat (a - 2) < 2)%nat) as [Hi Hlt].
  { destruct (axes01_elem _ _ Hax Ha) as [Heq | Heq]; rewrite Heq in *; by split; [| lia]. }
  unfold upstream_stride.
  assert (Forall (λ m, stride_on (Z.to_nat (a - 2)) m = 1) (take k model')) as Hones.
  { apply Forall_take. eapply Forall_impl; [exact Hconv |].
    intros m Hm. by eapply stride_on_converted. }
  induction Hones as [| m l Hm _ IH]; [done |]. cbn. rewrite Hm, IH. done.
Qed.

Lemma converted_model_is_dense_witness :
  upstream_stride (Z.to_nat (3 - 2))
    [NnModule None None;
     NnModule (Some (ATuple [1; 1])) (Some (ATuple [2; 1]));
     NnModule (Some (ATuple [1; 3])) (Some (ATuple [3; 1]));
     NnModule (Some (ATuple [1; 9])) (Some (ATuple [1; 1]));
     NnModule (Some (ATuple [1; 45])) (Some (ATuple [1; 1]))]
    5 = 1.
Proof.
  apply (converted_model_is_dense network_example (AInt 3)).
  - vm_compute. reflexivity.
  - apply list_elem_of_In. simpl. auto.
Defined.
